(** * MDAnalysisData: the fetch-and-cache pattern of the dataset modules

    A shallow embedding of [MDAnalysisData/adk_equilibrium.py] and
    [MDAnalysisData/ifabp_water.py].  Both modules consist of three
    constants ([NAME], [DESCRIPTION], [ARCHIVE]) and one function
    ([fetch_adk_equilibrium], [fetch_ifabp_water]); the two function
    bodies are the same text, so the body is embedded once, in
    [Section DatasetFetcher], and instantiated in one [Module] per source
    file.

    The functions act on the file system, the network and the logger.
    These are modelled by an explicit [State] threaded through a small
    state-and-exception monad [M]; everything the program cannot control
    (the digest function, what the remote host answers, which paths the
    process may create, where the package is installed) is collected in a
    [World]. *)

From Stdlib Require Import Ascii.
From stdpp Require Import base gmap strings list.

#[local] Set Warnings "-clear-no-such-hyp".

(** ** Strings and POSIX paths *)

Definition sep : ascii := "/"%char.

Definition startswith_sep (s : string) : bool :=
  match s with
  | String c _ => Ascii.eqb c sep
  | EmptyString => false
  end.

Fixpoint endswith_sep (s : string) : bool :=
  match s with
  | EmptyString => false
  | String c EmptyString => Ascii.eqb c sep
  | String _ t => endswith_sep t
  end.

Definition is_empty (s : string) : bool :=
  match s with EmptyString => true | _ => false end.

(** [os.path.join] with two arguments (posixpath): an absolute second
    component replaces the first; a separator is inserted unless the first
    component is empty or already ends with one. *)
Definition join (a b : string) : string :=
  if startswith_sep b then b
  else if is_empty a || endswith_sep a then a +:+ b
  else a +:+ "/" +:+ b.

(** [os.path.join] with three arguments folds the two-argument case. *)
Definition join3 (a b c : string) : string := join (join a b) c.

(** [contains needle hay]: Python's [needle in hay]. *)
Fixpoint contains (needle hay : string) : bool :=
  String.prefix needle hay ||
  match hay with
  | EmptyString => false
  | String _ t => contains needle t
  end.

(** [endswith hay suffix]: Python's [hay.endswith(suffix)]. *)
Fixpoint endswith (hay suffix : string) : bool :=
  String.eqb hay suffix ||
  match hay with
  | EmptyString => false
  | String _ t => endswith t suffix
  end.

(** The prefixes [q] of [p] at which a separator follows: [p = q/r]. *)
Fixpoint cuts (p : string) : list string :=
  match p with
  | EmptyString => []
  | String c t =>
      (if Ascii.eqb c sep then [EmptyString] else []) ++ (String c <$> cuts t)
  end.

(** The proper ancestors of a path, outermost first.  The root directory
    (the empty prefix of an absolute path) always exists and is left out. *)
Definition ancestors (p : string) : list string :=
  filter (λ q, q ≠ EmptyString) (cuts p).

(** ** Data model *)

(** Modelled from the spec: [base.RemoteFileMetadata] is not among the
    sources.  Spec 3: an immutable descriptor of a file name, a source
    url and an expected checksum; the archives construct it with these
    three keywords and the fetch functions read [filename] and [url]. *)
Record RemoteFileMetadata := {
  filename : string;
  url : string;
  checksum : string;
}.

(** Modelled from the spec: [base.Bunch] is not among the sources.  The
    spec's ResultBundle is a mapping from role name to resolved local path
    plus a description string; the source fills it by item assignment
    ([records[file_type] = ...]) and by attribute assignment
    ([records.DESCR = ...]), which address the same mapping. *)
Abbreviation Bunch := (gmap string string).

(** Exceptions.  [IOError] is the one the source raises itself; the others
    are the spec's taxonomy for the collaborators ([makedirs], the
    downloader) and the failure of opening the description file.  Each
    carries the data its raiser has at hand. *)
Inductive exception :=
| IOError (msg : string)
| FilesystemError (path : string)
| TransientFetchError (source : string) (path : string)
| IntegrityError (path : string) (expected actual : string)
| FileNotFoundError (path : string).

(** The strings an exception presents to the user. *)
Definition error_text (e : exception) : list string :=
  match e with
  | IOError msg => [msg]
  | FilesystemError p => [p]
  | TransientFetchError u p => [u; p]
  | IntegrityError p expected actual => [p; expected; actual]
  | FileNotFoundError p => [p]
  end.

(** An exception identifies [s] when [s] occurs in what it presents. *)
Definition identifies (e : exception) (s : string) : bool :=
  existsb (contains s) (error_text e).

Inductive result (A : Type) :=
| Ok (a : A)
| Err (e : exception).
Arguments Ok {A} a.
Arguments Err {A} e.

(** Observable effects, recorded most recent first. *)
Inductive event :=
| EvLogInfo (msg : string)              (* logger.info *)
| EvFetchRemote (m : RemoteFileMetadata) (dirname : string)
                                        (* a call of the downloader *)
| EvRequest (source : string)           (* one network request *)
| EvOpen (path : string).               (* codecs.open *)

Definition is_network (e : event) : bool :=
  match e with
  | EvFetchRemote _ _ | EvRequest _ => true
  | _ => false
  end.

Definition is_open (e : event) : bool :=
  match e with EvOpen _ => true | _ => false end.

(** The local file system and the effect history.  [clock] counts the
    network requests made so far; it indexes the answers of the remote
    host. *)
Record State := {
  dirs : gset string;
  files : gmap string string;
  clock : nat;
  trace : list event;
}.

(** What the program cannot control. *)
Record World := {
  sha256 : string → string;                  (* digest of a file content *)
  remote : string → nat → option string;     (* answer to the n-th request *)
  retries : nat;                             (* bound on repeated requests *)
  permits : string → bool;                   (* may this entry be created *)
  verify_cached : bool;                      (* downloader policy, see below *)
  module_path : string;                      (* dirname(__file__) *)
  environ_data_home : option string;         (* process-wide override *)
  user_home : string;
}.

(** ** The state-and-exception monad *)

Definition M (A : Type) : Type := State → result A * State.

Definition ret {A} (a : A) : M A := λ st, (Ok a, st).

Definition raise {A} (e : exception) : M A := λ st, (Err e, st).

Definition bind {A B} (c : M A) (k : A → M B) : M B :=
  λ st, match c st with
        | (Ok a, st1) => k a st1
        | (Err e, st1) => (Err e, st1)
        end.

Notation "'let*' x ':=' c 'in' k" := (bind c (λ x, k))
  (at level 10, x name, c at level 100, k at level 200).
Notation "c ';;' k" := (bind c (λ _, k))
  (at level 100, k at level 200, right associativity).

Definition emit (e : event) : M unit :=
  λ st, (Ok tt, {| dirs := dirs st; files := files st;
                   clock := clock st; trace := e :: trace st |}).

(** ** os and os.path on the modelled file system *)

Definition is_dir (st : State) (p : string) : bool := bool_decide (p ∈ dirs st).

Definition is_file (st : State) (p : string) : bool :=
  bool_decide (is_Some (files st !! p)).

(** [os.path.exists] as a pure observation and as a computation. *)
Definition path_exists (st : State) (p : string) : bool :=
  is_dir st p || is_file st p.

Definition exists_ (p : string) : M bool := λ st, (Ok (path_exists st p), st).

Section Collaborators.
Context (w : World).

(** [os.mkdir]: fails on an occupied path and where the process lacks
    permission. *)
Definition mkdir (p : string) : M unit := λ st,
  if path_exists st p || negb (permits w p) then (Err (FilesystemError p), st)
  else (Ok tt, {| dirs := {[p]} ∪ dirs st; files := files st;
                  clock := clock st; trace := trace st |}).

(** Create the listed directories, outermost first, skipping the ones
    that are directories already. *)
Fixpoint mkdir_chain (ps : list string) : M unit :=
  match ps with
  | [] => ret tt
  | p :: rest => λ st,
      if is_dir st p then mkdir_chain rest st
      else (mkdir p ;; mkdir_chain rest) st
  end.

(** [os.makedirs] (with [exist_ok=False], as the source calls it) on a
    normalised path: the leaf must be new; missing intermediate
    directories are created on the way. *)
Definition makedirs (p : string) : M unit := λ st,
  if path_exists st p then (Err (FilesystemError p), st)
  else mkdir_chain (ancestors p ++ [p]) st.

(** Modelled from the spec: [base.get_data_home] is not among the
    sources.  Spec 4.1 [resolve_root]: the override if given, else the
    process-wide default if configured, else a fixed location under the
    user's home directory. *)
Definition get_data_home (data_home : option string) : string :=
  match data_home with
  | Some p => p
  | None =>
      match environ_data_home w with
      | Some p => p
      | None => join (user_home w) "MDAnalysis_data"
      end
  end.

(** Repeated requests to the remote host: at most [attempts] of them,
    each recorded and each advancing the clock. *)
Fixpoint retrieve (attempts : nat) (source : string) (st : State)
  : option string * State :=
  match attempts with
  | O => (None, st)
  | S n =>
      let st1 := {| dirs := dirs st; files := files st;
                    clock := S (clock st);
                    trace := EvRequest source :: trace st |} in
      match remote w source (clock st) with
      | Some body => (Some body, st1)
      | None => retrieve n source st1
      end
  end.

Definition cached_ok (meta : RemoteFileMetadata) (st : State) (p : string)
  : bool :=
  path_exists st p &&
  (negb (verify_cached w) ||
   match files st !! p with
   | Some body => String.eqb (sha256 w body) (checksum meta)
   | None => false
   end).

(** Modelled from the spec: [base._fetch_remote] is not among the
    sources.  Spec 4.2 (Downloader): if the final path exists, [force]
    is false and (optionally, here [verify_cached]) its checksum
    matches, return at once without network access.  Otherwise retrieve
    the remote bytes, with a bounded number of repeated requests after
    network failures (TransientFetchError when they are used up);
    compare the digest with the expected checksum and fail with
    IntegrityError on a mismatch, leaving nothing at the final path; on
    a match place the file at the final path.  Blocked creation is a
    FilesystemError and is not retried.  The temporary file the spec
    streams to has a name of its own and is gone (renamed or discarded)
    when the call returns, so only its net effect appears here. *)
Definition _fetch_remote (meta : RemoteFileMetadata) (dirname : string)
    (force : bool) : M string :=
  let file_path := join dirname (filename meta) in
  emit (EvFetchRemote meta dirname) ;;
  λ st,
    if negb force && cached_ok meta st file_path then (Ok file_path, st)
    else if negb (is_dir st dirname) || is_dir st file_path
              || negb (permits w file_path)
    then (Err (FilesystemError file_path), st)
    else
      match retrieve (S (retries w)) (url meta) st with
      | (None, st1) => (Err (TransientFetchError (url meta) file_path), st1)
      | (Some body, st1) =>
          if String.eqb (sha256 w body) (checksum meta)
          then (Ok file_path,
                {| dirs := dirs st1; files := <[file_path := body]> (files st1);
                   clock := clock st1; trace := trace st1 |})
          else (Err (IntegrityError file_path (checksum meta) (sha256 w body)),
                st1)
      end.

(** [codecs.open(path, encoding="utf-8").read()]: file contents are
    modelled as decoded text. *)
Definition open_read (p : string) : M string :=
  emit (EvOpen p) ;;
  λ st, match files st !! p with
        | Some text => (Ok text, st)
        | None => (Err (FileNotFoundError p), st)
        end.
End Collaborators.

(** ** The fetch function of the dataset modules *)

Section DatasetFetcher.
Context (w : World).
Variables (NAME DESCRIPTION : string).
Variable ARCHIVE : list (string * RemoteFileMetadata).

(** The message of the [IOError] of the source:
    ["Data {0}={1} not found and `download_if_missing` is False"]. *)
Definition not_found_message (file_type local_path : string) : string :=
  "Data " +:+ file_type +:+ "=" +:+ local_path +:+
  " not found and `download_if_missing` is False".

(** ["Downloading {0}: {1} -> {2}..."]. *)
Definition downloading_message (file_type source local_path : string)
  : string :=
  "Downloading " +:+ file_type +:+ ": " +:+ source +:+ " -> " +:+
  local_path +:+ "...".

(** The body of [for file_type, meta in ARCHIVE.items()], over the items
    in the order the dictionary literal lists them. *)
Fixpoint for_items (data_location : string) (download_if_missing : bool)
    (items : list (string * RemoteFileMetadata)) (records : Bunch)
  : M Bunch :=
  match items with
  | [] => ret records
  | (file_type, meta) :: rest =>
      let local_path := join data_location (filename meta) in
      let records := <[file_type := local_path]> records in
      let* present := exists_ local_path in
      (if negb present then
         if negb download_if_missing then
           raise (IOError (not_found_message file_type local_path))
         else
           emit (EvLogInfo (downloading_message file_type (url meta)
                                                local_path)) ;;
           let* archive_path := _fetch_remote w meta data_location false in
           ret tt
       else ret tt) ;;
      for_items data_location download_if_missing rest records
  end.

Definition data_location_of (data_home : option string) : string :=
  join (get_data_home w data_home) NAME.

Definition description_path : string :=
  join3 (module_path w) "descr" DESCRIPTION.

Definition fetch (data_home : option string) (download_if_missing : bool)
  : M Bunch :=
  let name := NAME in
  let data_location := join (get_data_home w data_home) name in
  let* present := exists_ data_location in
  (if negb present then makedirs w data_location else ret tt) ;;
  let* records := for_items data_location download_if_missing ARCHIVE ∅ in
  let* text := open_read description_path in
  ret (<["DESCR" := text]> records).
End DatasetFetcher.

Module adk_equilibrium.
Definition NAME : string := "adk_equilibrium".
Definition DESCRIPTION : string := "adk_equilibrium.rst".
Definition ARCHIVE : list (string * RemoteFileMetadata) :=
  [ ("topology",
     {| filename := "adk4AKE.psf";
        url := "https://ndownloader.figshare.com/files/8672230";
        checksum :=
          "1aa947d58fb41b6805dc1e7be4dbe65c6a8f4690f0bd7fc2ae03e7bd437085f4" |});
    ("trajectory",
     {| filename := "1ake_007-nowater-core-dt240ps.dcd";
        url := "https://ndownloader.figshare.com/files/8672074";
        checksum :=
          "598fcbcfcc425f6eafbe9997238320fcacc6a4613ecce061e1521732bab734bf" |}) ].

Definition fetch_adk_equilibrium (w : World) (data_home : option string)
    (download_if_missing : bool) : M Bunch :=
  fetch w NAME DESCRIPTION ARCHIVE data_home download_if_missing.
End adk_equilibrium.

Module ifabp_water.
Definition NAME : string := "ifabp_water".
Definition DESCRIPTION : string := "ifabp_water.rst".
Definition ARCHIVE : list (string * RemoteFileMetadata) :=
  [ ("topology",
     {| filename := "ifabp_water.psf";
        url := "https://ndownloader.figshare.com/files/12980639";
        checksum :=
          "ba40714318aabec537015dc550fe5bd5ac1ac0b853f5abdd2f0ae63af9cfcafa" |});
    ("structure",
     {| filename := "ifabp_water_0.pdb";
        url := "https://ndownloader.figshare.com/files/12980636";
        checksum :=
          "8ccf5f75fd85385921c0cb77f00281a93b933fc1261c42fc9492f43983448a72" |});
    ("trajectory",
     {| filename := "rmsfit_ifabp_water_1.dcd";
        url := "https://ndownloader.figshare.com/files/12980642";
        checksum :=
          "cebb48e58015abc8ff2f5bb7ba3eb7a289047f256351a8252bf1f29f9aaacf0e" |}) ].

Definition fetch_ifabp_water (w : World) (data_home : option string)
    (download_if_missing : bool) : M Bunch :=
  fetch w NAME DESCRIPTION ARCHIVE data_home download_if_missing.
End ifabp_water.

(** ** Well-formed dataset definitions *)

Fixpoint has_sep (s : string) : bool :=
  match s with
  | EmptyString => false
  | String c t => Ascii.eqb c sep || has_sep t
  end.

(** The dataset name is one path component and every file name is
    relative: what the layout [<data_home>/<dataset_name>/<filename>]
    takes for granted. *)
Definition well_formed (NAME : string)
    (ARCHIVE : list (string * RemoteFileMetadata)) : bool :=
  negb (is_empty NAME) && negb (has_sep NAME) &&
  forallb (λ item, negb (startswith_sep (filename item.2))) ARCHIVE.

(** The keys of a dictionary literal are distinct, and no role is called
    [DESCR]. *)
Definition roles_ok (ARCHIVE : list (string * RemoteFileMetadata)) : Prop :=
  NoDup ARCHIVE.*1 ∧ "DESCR" ∉ ARCHIVE.*1.

(** The first item of the archive whose file is not at its local path. *)
Definition first_missing (st : State) (data_location : string)
    (items : list (string * RemoteFileMetadata))
  : option (string * RemoteFileMetadata) :=
  List.find (λ item, negb (path_exists st (join data_location (filename item.2))))
            items.

(** The records after the assignments [records[file_type] = local_path]
    of a whole pass over the items. *)
Definition assign_all (data_location : string)
    (items : list (string * RemoteFileMetadata)) (records : Bunch) : Bunch :=
  foldl (λ recs item, <[item.1 := join data_location (filename item.2)]> recs)
        records items.

(** The first statement of the fetch functions: make sure the dataset
    directory is there. *)
Definition ensure_location (w : World) (data_location : string) : M unit :=
  let* present := exists_ data_location in
  if negb present then makedirs w data_location else ret tt.

(** The dataset directory exists or can be created. *)
Definition dir_ready (w : World) (data_location : string) (st : State) : bool :=
  match ensure_location w data_location st with
  | (Ok _, _) => true
  | (Err _, _) => false
  end.

(** One turn of the loop of the fetch functions, after the assignment to
    [records]: the existence test and what follows from it. *)
Definition item_step (w : World) (data_location : string)
    (download_if_missing : bool) (item : string * RemoteFileMetadata)
  : M unit :=
  let local_path := join data_location (filename item.2) in
  let* present := exists_ local_path in
  if negb present then
    if negb download_if_missing then
      raise (IOError (not_found_message item.1 local_path))
    else
      emit (EvLogInfo (downloading_message item.1 (url item.2) local_path)) ;;
      let* archive_path := _fetch_remote w item.2 data_location false in
      ret tt
  else ret tt.

(** The exceptions a turn of the loop can end in: the [IOError] of the
    source when downloads are disabled, else what the downloader raises. *)
Definition item_error (download_if_missing : bool) (data_location : string)
    (item : string * RemoteFileMetadata) (e : exception) : Prop :=
  let p := join data_location (filename item.2) in
  if download_if_missing then
    e = FilesystemError p ∨
    e = TransientFetchError (url item.2) p ∨
    ∃ actual, e = IntegrityError p (checksum item.2) actual ∧
              actual ≠ checksum item.2
  else e = IOError (not_found_message item.1 p).

(** An event the loop may add to a history that started in [st0]: never
    the opening of a file, and a downloader call only for a path that did
    not exist in [st0]. *)
Definition download_event (st0 : State) (e : event) : Prop :=
  match e with
  | EvOpen _ => False
  | EvFetchRemote m d => path_exists st0 (join d (filename m)) = false
  | _ => True
  end.

(** How the loop over [items] may change the state. *)
Record evolves (w : World) (data_location : string)
    (items : list (string * RemoteFileMetadata)) (st st' : State) : Prop := {
  ev_dirs : dirs st' = dirs st;
  ev_files : files st ⊆ files st';
  ev_trace : ∃ new, trace st' = new ++ trace st ∧
                    Forall (download_event st) new;
  ev_prov : ∀ p c, files st' !! p = Some c →
              files st !! p = Some c ∨
              ∃ item, item ∈ items ∧
                      p = join data_location (filename item.2) ∧
                      sha256 w c = checksum item.2;
}.

(** ** Concrete worlds and cache states

    Used to run the fetch functions on explicit inputs.  The remote host
    of [example_world] serves, for every url, the text ["content of "]
    followed by the url; [example_digest] gives the content served for
    the url of a file of one of the two archives the checksum recorded
    for that file, and the empty digest to everything else. *)

Definition served (source : string) : string := "content of " +:+ source.

Definition example_digest (body : string) : string :=
  match List.find (λ item, String.eqb body (served (url item.2)))
                  (adk_equilibrium.ARCHIVE ++ ifabp_water.ARCHIVE) with
  | Some item => checksum item.2
  | None => ""
  end.

Definition example_world : World := {|
  sha256 := example_digest;
  remote := λ source _, Some (served source);
  retries := 2;
  permits := λ _, true;
  verify_cached := true;
  module_path := "/opt/site-packages/MDAnalysisData";
  environ_data_home := None;
  user_home := "/home/user";
|}.

(** A remote host that serves the same bytes for every file. *)
Definition tampering_world : World := {|
  sha256 := example_digest;
  remote := λ _ _, Some "garbage";
  retries := 2;
  permits := λ _, true;
  verify_cached := false;
  module_path := "/opt/site-packages/MDAnalysisData";
  environ_data_home := None;
  user_home := "/home/user";
|}.

Definition description_files : gmap string string :=
  {[ "/opt/site-packages/MDAnalysisData/descr/adk_equilibrium.rst" :=
       "AdK equilibrium dataset";
     "/opt/site-packages/MDAnalysisData/descr/ifabp_water.rst" :=
       "I-FABP in water dataset" ]}.

(** Nothing cached: the default data home does not exist yet. *)
Definition fresh_state : State := {|
  dirs := {[ "/home"; "/home/user"; "/opt"; "/opt/site-packages";
             "/opt/site-packages/MDAnalysisData";
             "/opt/site-packages/MDAnalysisData/descr" ]};
  files := description_files;
  clock := 0;
  trace := [];
|}.

(** Both files of [adk_equilibrium] are cached; the topology file has
    been overwritten and no longer has the recorded checksum. *)
Definition mutated_cache_state : State := {|
  dirs := {[ "/home"; "/home/user"; "/home/user/MDAnalysis_data";
             "/home/user/MDAnalysis_data/adk_equilibrium";
             "/opt"; "/opt/site-packages";
             "/opt/site-packages/MDAnalysisData";
             "/opt/site-packages/MDAnalysisData/descr" ]};
  files :=
    <[ "/home/user/MDAnalysis_data/adk_equilibrium/adk4AKE.psf" :=
         "overwritten" ]>
    (<[ "/home/user/MDAnalysis_data/adk_equilibrium/1ake_007-nowater-core-dt240ps.dcd" :=
          served "https://ndownloader.figshare.com/files/8672074" ]>
     description_files);
  clock := 0;
  trace := [];
|}.

(** Only the topology file of [ifabp_water] is cached. *)
Definition partial_cache_state : State := {|
  dirs := {[ "/home"; "/home/user"; "/home/user/MDAnalysis_data";
             "/home/user/MDAnalysis_data/ifabp_water";
             "/opt"; "/opt/site-packages";
             "/opt/site-packages/MDAnalysisData";
             "/opt/site-packages/MDAnalysisData/descr" ]};
  files :=
    <[ "/home/user/MDAnalysis_data/ifabp_water/ifabp_water.psf" :=
         served "https://ndownloader.figshare.com/files/12980639" ]>
    description_files;
  clock := 0;
  trace := [];
|}.

(** ** Decidable equality of outcomes

    Outcomes of concrete runs are compared by evaluation. *)

#[global] Instance RemoteFileMetadata_eq_dec : EqDecision RemoteFileMetadata.
Proof. solve_decision. Defined.

#[global] Instance exception_eq_dec : EqDecision exception.
Proof. solve_decision. Defined.

#[global] Instance event_eq_dec : EqDecision event.
Proof. solve_decision. Defined.

#[global] Instance result_eq_dec {A} `{EqDecision A} : EqDecision (result A).
Proof. solve_decision. Defined.

#[global] Instance State_eq_dec : EqDecision State.
Proof. solve_decision. Defined.

(** [by_evaluation] proves a decidable proposition about concrete data by
    running its decision procedure. *)
Ltac by_evaluation :=
  apply (bool_decide_unpack _); vm_compute; exact I.


(** The default data home is occupied by a regular file. *)
Definition blocked_state : State := {|
  dirs := {[ "/home"; "/home/user"; "/opt"; "/opt/site-packages";
             "/opt/site-packages/MDAnalysisData";
             "/opt/site-packages/MDAnalysisData/descr" ]};
  files := <[ "/home/user/MDAnalysis_data" := "not a directory" ]>
           description_files;
  clock := 0;
  trace := [];
|}.


(** ** The shape of the history of a loop

    Events are recorded most recent first, so the events of one download
    read from the right: the log line, the call of the downloader, then
    its requests. *)

Definition download_block (data_location : string)
    (item : string * RemoteFileMetadata) (requests : nat) : list event :=
  replicate requests (EvRequest (url item.2)) ++
  [EvFetchRemote item.2 data_location;
   EvLogInfo (downloading_message item.1 (url item.2)
                (join data_location (filename item.2)))].

(** The histories the loop over [items] can produce: for each item, in
    order, either nothing or one download with a bounded number of
    requests. *)
Inductive loop_trace (w : World) (data_location : string)
  : list (string * RemoteFileMetadata) → list event → Prop :=
| loop_trace_nil : loop_trace w data_location [] []
| loop_trace_skip item items new :
    loop_trace w data_location items new →
    loop_trace w data_location (item :: items) new
| loop_trace_download item items new n :
    n ≤ S (retries w) →
    loop_trace w data_location items new →
    loop_trace w data_location (item :: items)
               (new ++ download_block data_location item n).

(** The files the downloader was called for, most recent call first. *)
Fixpoint downloader_calls (tr : list event) : list RemoteFileMetadata :=
  match tr with
  | [] => []
  | EvFetchRemote m _ :: rest => m :: downloader_calls rest
  | _ :: rest => downloader_calls rest
  end.


(** * Lemmas *)

(** ** Strings *)

Lemma append_cons (c : ascii) (s t : string) :
  String c s +:+ t = String c (s +:+ t).
Proof. reflexivity. Qed.

Lemma append_nil_l (t : string) : "" +:+ t = t.
Proof. reflexivity. Qed.

Ltac app_simpl := rewrite ?append_cons, ?append_nil_l in *; simpl in *.

Lemma append_nil_r (s : string) : s +:+ "" = s.
Proof. induction s as [|c s IH]; app_simpl; congruence. Qed.

Lemma append_assoc (a b c : string) : (a +:+ b) +:+ c = a +:+ (b +:+ c).
Proof. induction a as [|x a IH]; app_simpl; congruence. Qed.

Lemma append_inv_head (a b c : string) : a +:+ b = a +:+ c → b = c.
Proof. induction a as [|x a IH]; app_simpl; [done | intros [=]; auto]. Qed.

Lemma prefix_append (s t : string) : String.prefix s (s +:+ t) = true.
Proof.
  induction s as [|c s IH]; app_simpl; [by destruct t |].
  destruct (ascii_dec c c) as [_|Hne]; [exact IH | by destruct Hne].
Qed.

Lemma contains_append_r (s a b : string) :
  contains s b = true → contains s (a +:+ b) = true.
Proof.
  intros Hb. induction a as [|c a IH]; app_simpl; [done |].
  rewrite IH. apply orb_true_r.
Qed.

Lemma contains_prefix (s t : string) :
  String.prefix s t = true → contains s t = true.
Proof. intros H. destruct t; unfold contains; fold contains; by rewrite H. Qed.

Lemma contains_middle (s a b : string) : contains s (a +:+ s +:+ b) = true.
Proof. apply contains_append_r, contains_prefix, prefix_append. Qed.

Lemma contains_refl (s : string) : contains s s = true.
Proof.
  replace s with ("" +:+ s +:+ "") at 2 by (app_simpl; apply append_nil_r).
  apply contains_middle.
Qed.

Lemma contains_suffix (s a : string) : contains s (a +:+ s) = true.
Proof. apply contains_append_r, contains_refl. Qed.

Lemma prefix_inv (s t : string) :
  String.prefix s t = true → ∃ r, t = s +:+ r.
Proof.
  revert t. induction s as [|c s IH]; intros t H; simpl in *.
  - by exists t.
  - destruct t as [|d t]; simpl in H; [done |].
    destruct (ascii_dec c d) as [->|]; [|done].
    destruct (IH _ H) as [r ->]. by exists r.
Qed.

Lemma contains_unfold (s t : string) :
  contains s t =
  String.prefix s t ||
  match t with EmptyString => false | String _ t' => contains s t' end.
Proof. by destruct t. Qed.

Lemma contains_inv (s t : string) :
  contains s t = true → ∃ a b, t = a +:+ s +:+ b.
Proof.
  induction t as [|c t IH]; rewrite contains_unfold; intros H.
  - rewrite orb_false_r in H. destruct (prefix_inv _ _ H) as [r ->].
    by exists "", r.
  - apply orb_true_iff in H as [H|H].
    + destruct (prefix_inv _ _ H) as [r ->]. by exists "", r.
    + destruct (IH H) as (a & b & ->). by exists (String c a), b.
Qed.

Lemma contains_trans (s t u : string) :
  contains s t = true → contains t u = true → contains s u = true.
Proof.
  intros Hst Htu.
  destruct (contains_inv _ _ Hst) as (a & b & ->).
  destruct (contains_inv _ _ Htu) as (a' & b' & ->).
  rewrite !append_assoc, <- (append_assoc a' a).
  apply contains_middle.
Qed.

Lemma endswith_refl (s : string) : endswith s s = true.
Proof. destruct s; simpl; [done |]. by rewrite Ascii.eqb_refl, String.eqb_refl. Qed.

Lemma endswith_append (a s : string) : endswith (a +:+ s) s = true.
Proof.
  induction a as [|c a IH]; app_simpl; [apply endswith_refl |].
  rewrite IH. apply orb_true_r.
Qed.

Lemma length_append (a b : string) :
  String.length (a +:+ b) = String.length a + String.length b.
Proof. induction a as [|c a IH]; app_simpl; congruence. Qed.

(** ** Paths *)

Lemma join_cases (a b : string) :
  join a b = b ∨ join a b = a +:+ b ∨ join a b = a +:+ "/" +:+ b.
Proof.
  unfold join. destruct (startswith_sep b); [by left |].
  destruct (is_empty a || endswith_sep a); auto.
Qed.

Lemma join_endswith (a b : string) : endswith (join a b) b = true.
Proof.
  destruct (join_cases a b) as [-> | [-> | ->]].
  - apply endswith_refl.
  - apply endswith_append.
  - rewrite <- append_assoc. apply endswith_append.
Qed.

Lemma join_contains_r (a b : string) : contains b (join a b) = true.
Proof.
  destruct (join_cases a b) as [-> | [-> | ->]].
  - apply contains_refl.
  - apply contains_suffix.
  - rewrite <- append_assoc. apply contains_suffix.
Qed.

Lemma join_relative (a b : string) :
  startswith_sep b = false →
  join a b = a +:+ b ∨ join a b = a +:+ "/" +:+ b.
Proof.
  intros Hb. unfold join. rewrite Hb.
  destruct (is_empty a || endswith_sep a); auto.
Qed.

Lemma join_contains_l (a b : string) :
  startswith_sep b = false → contains a (join a b) = true.
Proof.
  intros Hb. destruct (join_relative a b Hb) as [-> | ->].
  - apply contains_prefix, prefix_append.
  - apply contains_prefix, prefix_append.
Qed.

Lemma join_normal (a b : string) :
  is_empty a = false → endswith_sep a = false → startswith_sep b = false →
  join a b = a +:+ "/" +:+ b.
Proof. intros Ha Ha' Hb. unfold join. by rewrite Hb, Ha, Ha'. Qed.

Lemma has_sep_start (s : string) : has_sep s = false → startswith_sep s = false.
Proof. destruct s; simpl; [done |]. by intros [-> _]%orb_false_iff. Qed.

Lemma has_sep_end (s : string) : has_sep s = false → endswith_sep s = false.
Proof.
  induction s as [|c s IH]; simpl; [done |].
  intros [Hc Hs]%orb_false_iff. destruct s; [done | auto].
Qed.

Lemma has_sep_append (a r : string) : has_sep (a +:+ String sep r) = true.
Proof.
  induction a as [|c a IH]; app_simpl; [done |].
  rewrite IH. apply orb_true_r.
Qed.

Lemma has_sep_lead (r : string) : has_sep ("/" +:+ r) = true.
Proof. exact (has_sep_append "" r). Qed.

Lemma has_sep_middle (a b : string) : has_sep (a +:+ "/" +:+ b) = true.
Proof. exact (has_sep_append a b). Qed.

Lemma endswith_sep_append (a b : string) :
  is_empty b = false → endswith_sep (a +:+ b) = endswith_sep b.
Proof.
  intros Hb. induction a as [|c a IH]; app_simpl; [done |].
  rewrite IH. destruct (a +:+ b) eqn:E; [|done].
  destruct a; app_simpl; [by subst b | discriminate].
Qed.

Lemma is_empty_append (a b : string) :
  is_empty b = false → is_empty (a +:+ b) = false.
Proof. intros Hb. destruct a; app_simpl; done. Qed.

(** Joining a one-component name to any root gives a normalised
    directory name: not empty, no trailing separator. *)
Lemma join_name_normal (root NAME : string) :
  is_empty NAME = false → has_sep NAME = false →
  is_empty (join root NAME) = false ∧ endswith_sep (join root NAME) = false.
Proof.
  intros Hne Hsep.
  destruct (join_relative root NAME (has_sep_start _ Hsep)) as [-> | ->].
  - split; [by apply is_empty_append |].
    rewrite endswith_sep_append by done. by apply has_sep_end.
  - rewrite <- !append_assoc. split; [by apply is_empty_append |].
    rewrite endswith_sep_append by done. by apply has_sep_end.
Qed.

Lemma elem_of_cuts (q p : string) :
  q ∈ cuts p ↔ ∃ r, p = q +:+ String sep r.
Proof.
  revert q. induction p as [|c p IH]; intros q; simpl.
  - split; [by intros ?%elem_of_nil |].
    intros [r Hr]. destruct q; app_simpl; discriminate.
  - rewrite elem_of_app, list_elem_of_fmap. split.
    + intros [Hq | (q' & -> & Hq')].
      * destruct (Ascii.eqb_spec c sep) as [-> |]; [|by apply elem_of_nil in Hq].
        apply list_elem_of_singleton in Hq as ->. by exists p.
      * apply IH in Hq' as [r ->]. by exists r.
    + intros [r Hr]. destruct q as [|d q]; app_simpl.
      * injection Hr as -> ->. left. rewrite Ascii.eqb_refl.
        by apply list_elem_of_singleton.
      * injection Hr as -> ->. right. exists q. split; [done |].
        apply IH. by exists r.
Qed.

Lemma elem_of_ancestors (q p : string) :
  q ∈ ancestors p ↔ q ≠ "" ∧ ∃ r, p = q +:+ "/" +:+ r.
Proof. unfold ancestors. by rewrite list_elem_of_filter, elem_of_cuts. Qed.

Lemma ancestors_shorter (q p : string) :
  q ∈ ancestors p → String.length q < String.length p.
Proof.
  intros [_ [r ->]]%elem_of_ancestors. rewrite !length_append. simpl. lia.
Qed.

(** A path strictly below [loc] is neither [loc] nor one of its
    ancestors. *)
Lemma below_not_created (loc fn : string) :
  is_empty loc = false → endswith_sep loc = false → startswith_sep fn = false →
  join loc fn ∉ ancestors loc ++ [loc].
Proof.
  intros H1 H2 H3. rewrite (join_normal _ _ H1 H2 H3).
  intros [Hin | Heq%list_elem_of_singleton]%elem_of_app.
  - apply ancestors_shorter in Hin. rewrite !length_append in Hin. lia.
  - apply (f_equal String.length) in Heq.
    rewrite !length_append in Heq. simpl in Heq. lia.
Qed.

(** ** The collaborators *)

Section CollaboratorFacts.
Context (w : World).

Lemma path_exists_dir (st : State) (p : string) :
  p ∈ dirs st → path_exists st p = true.
Proof.
  intros H. unfold path_exists, is_dir. by rewrite bool_decide_eq_true_2.
Qed.

Lemma path_exists_file (st : State) (p c : string) :
  files st !! p = Some c → path_exists st p = true.
Proof.
  intros H. unfold path_exists, is_file.
  rewrite (bool_decide_eq_true_2 (is_Some _)) by eauto. apply orb_true_r.
Qed.

Lemma path_exists_inv (st : State) (p : string) :
  path_exists st p = true → p ∈ dirs st ∨ ∃ c, files st !! p = Some c.
Proof.
  unfold path_exists, is_dir, is_file.
  intros [H|H]%orb_true_iff; apply bool_decide_eq_true in H; [by left |].
  right. by destruct H as [c Hc]; exists c.
Qed.

(** Existence is monotone in the directories and files. *)
Lemma path_exists_mono (st st' : State) (p : string) :
  dirs st ⊆ dirs st' → files st ⊆ files st' →
  path_exists st p = true → path_exists st' p = true.
Proof.
  intros Hd Hf [H | [c H]]%path_exists_inv.
  - apply path_exists_dir. set_solver.
  - eapply path_exists_file, lookup_weaken; eauto.
Qed.

(** Existence only looks at the directories and files. *)
Lemma path_exists_ext (st st' : State) (p : string) :
  dirs st' = dirs st → files st' = files st →
  path_exists st' p = path_exists st p.
Proof. unfold path_exists, is_dir, is_file. by intros -> ->. Qed.

Lemma mkdir_chain_spec (ps : list string) (st : State) r st' :
  mkdir_chain w ps st = (r, st') →
  files st' = files st ∧ clock st' = clock st ∧ trace st' = trace st ∧
  dirs st ⊆ dirs st' ∧ dirs st' ⊆ dirs st ∪ list_to_set ps ∧
  (r = Ok tt → dirs st' = dirs st ∪ list_to_set ps).
Proof.
  revert st. induction ps as [|p ps IH]; intros st; simpl.
  - intros [= <- <-]. repeat split; try done; set_solver.
  - unfold is_dir at 1. case_bool_decide as Hd.
    + intros H. destruct (IH _ H) as (Hf & Hc & Ht & Hsub & Hsup & Hok).
      repeat split; try done; [set_solver |].
      intros Hr. rewrite (Hok Hr). set_solver.
    + unfold bind, mkdir.
      destruct (path_exists st p || negb (permits w p)).
      * intros [= <- <-]. repeat split; try done; set_solver.
      * intros H. destruct (IH _ H) as (Hf & Hc & Ht & Hsub & Hsup & Hok).
        simpl in *. repeat split; try done; [set_solver | set_solver |].
        intros Hr. rewrite (Hok Hr). set_solver.
Qed.

Lemma ensure_location_spec (loc : string) (st : State) r st' :
  ensure_location w loc st = (r, st') →
  files st' = files st ∧ clock st' = clock st ∧ trace st' = trace st ∧
  dirs st ⊆ dirs st' ∧
  dirs st' ⊆ dirs st ∪ list_to_set (ancestors loc ++ [loc]) ∧
  (path_exists st loc = true → r = Ok tt ∧ st' = st) ∧
  (path_exists st loc = false → r = Ok tt →
   dirs st' = dirs st ∪ list_to_set (ancestors loc ++ [loc])).
Proof.
  unfold ensure_location, bind, exists_, makedirs.
  destruct (path_exists st loc) eqn:E; simpl.
  - intros [= <- <-]. repeat split; try done; set_solver.
  - rewrite E. intros H.
    destruct (mkdir_chain_spec _ _ _ _ H) as (? & ? & ? & ? & ? & ?).
    repeat split; try done.
Qed.

Lemma ensure_location_ok (loc : string) (st st' : State) :
  ensure_location w loc st = (Ok tt, st') → path_exists st' loc = true.
Proof.
  intros H. destruct (ensure_location_spec _ _ _ _ H)
    as (_ & _ & _ & _ & _ & Hyes & Hno).
  destruct (path_exists st loc) eqn:E.
  - by destruct (Hyes eq_refl) as [_ ->].
  - apply path_exists_dir. rewrite (Hno eq_refl eq_refl).
    rewrite elem_of_union, elem_of_list_to_set, elem_of_app, list_elem_of_singleton.
    auto.
Qed.

Lemma retrieve_spec (n : nat) (source : string) (st : State) o st' :
  retrieve w n source st = (o, st') →
  dirs st' = dirs st ∧ files st' = files st ∧
  ∃ new, trace st' = new ++ trace st ∧ Forall (λ e, e = EvRequest source) new.
Proof.
  revert st. induction n as [|n IH]; intros st; simpl.
  - intros [= <- <-]. repeat split. by exists [].
  - destruct (remote w source (clock st)).
    + intros [= <- <-]. repeat split. exists [EvRequest source].
      split; [done | by constructor].
    + intros H. destruct (IH _ H) as (Hd & Hf & new & Ht & Hall). simpl in *.
      repeat split; [done | done |]. exists (new ++ [EvRequest source]).
      rewrite <- app_assoc. split; [done |].
      apply Forall_app. split; [done | by constructor].
Qed.

(** The downloader, called for a path that does not exist: all its
    requests go to the url of the file; on success the file is at its
    final path with the expected digest; on failure the files are
    unchanged and the exception names the final path. *)
Lemma fetch_remote_spec (meta : RemoteFileMetadata) (d : string) (st : State)
    r st' :
  path_exists st (join d (filename meta)) = false →
  _fetch_remote w meta d false st = (r, st') →
  dirs st' = dirs st ∧
  (∃ new, trace st' = new ++ EvFetchRemote meta d :: trace st ∧
          Forall (λ e, e = EvRequest (url meta)) new) ∧
  match r with
  | Ok p =>
      p = join d (filename meta) ∧
      ∃ body, files st' = <[p := body]> (files st) ∧
              sha256 w body = checksum meta
  | Err e =>
      files st' = files st ∧
      (e = FilesystemError (join d (filename meta)) ∨
       e = TransientFetchError (url meta) (join d (filename meta)) ∨
       ∃ actual, e = IntegrityError (join d (filename meta)) (checksum meta)
                                    actual ∧
                 actual ≠ checksum meta)
  end.
Proof.
  intros Hne. unfold _fetch_remote, bind, emit, cached_ok. cbv beta iota zeta.
  set (p := join d (filename meta)) in *.
  set (st0 := {| dirs := dirs st; files := files st; clock := clock st;
                 trace := EvFetchRemote meta d :: trace st |}).
  assert (Hne0 : path_exists st0 p = false) by done.
  rewrite Hne0. cbn [negb andb].
  destruct (negb (is_dir st0 d) || is_dir st0 p || negb (permits w p)).
  { intros [<- <-]%pair_equal_spec. repeat split; [by exists [] | auto]. }
  destruct (retrieve w (S (retries w)) (url meta) st0) as [[body|] st1] eqn:E;
    destruct (retrieve_spec _ _ _ _ _ E) as (Hd & Hf & new & Ht & Hall).
  - destruct (String.eqb_spec (sha256 w body) (checksum meta)) as [Heq|Hneq].
    + intros [<- <-]%pair_equal_spec. simpl. repeat split; eauto.
      exists body. by rewrite Hf.
    + intros [<- <-]%pair_equal_spec. repeat split; eauto.
  - intros [<- <-]%pair_equal_spec. repeat split; eauto.
Qed.

Lemma open_read_spec (p : string) (st : State) r st' :
  open_read p st = (r, st') →
  dirs st' = dirs st ∧ files st' = files st ∧ clock st' = clock st ∧
  trace st' = EvOpen p :: trace st ∧
  r = match files st !! p with
      | Some text => Ok text
      | None => Err (FileNotFoundError p)
      end.
Proof.
  unfold open_read, bind, emit. simpl.
  destruct (files st !! p); intros [= <- <-]; done.
Qed.
End CollaboratorFacts.

(** ** The loop over the archive *)

Section LoopFacts.
Context (w : World) (loc : string).

Lemma for_items_cons (dim : bool) item rest (recs : Bunch) (st : State) :
  for_items w loc dim (item :: rest) recs st =
  match item_step w loc dim item st with
  | (Ok _, st1) =>
      for_items w loc dim rest
                (<[item.1 := join loc (filename item.2)]> recs) st1
  | (Err e, st1) => (Err e, st1)
  end.
Proof.
  destruct item as [file_type meta].
  unfold item_step, for_items, bind, exists_, raise, ret, emit;
    fold for_items; cbv beta iota zeta.
  cbn [fst snd].
  destruct (path_exists st (join loc (filename meta))); cbn [negb]; [done |].
  destruct dim; cbn [negb]; [|done].
  by destruct (_fetch_remote w meta loc false _) as [[?|?] ?].
Qed.

Lemma evolves_refl items (st : State) : evolves w loc items st st.
Proof.
  split; [done | done | by exists [] | auto].
Qed.

Lemma download_event_mono (st0 st1 : State) e :
  dirs st0 ⊆ dirs st1 → files st0 ⊆ files st1 →
  download_event st1 e → download_event st0 e.
Proof.
  intros Hd Hf. destruct e as [| m d | |]; simpl; try done.
  intros H1. destruct (path_exists st0 _) eqn:E; [|done].
  rewrite (path_exists_mono st0 st1) in H1; done.
Qed.

Lemma evolves_trans i1 i2 (st0 st1 st2 : State) :
  evolves w loc i1 st0 st1 → evolves w loc i2 st1 st2 →
  evolves w loc (i1 ++ i2) st0 st2.
Proof.
  intros [Hd1 Hf1 (n1 & Ht1 & Ha1) Hp1] [Hd2 Hf2 (n2 & Ht2 & Ha2) Hp2]. split.
  - congruence.
  - by etrans.
  - exists (n2 ++ n1). rewrite Ht2, Ht1, app_assoc. split; [done |].
    apply Forall_app. split; [|done].
    eapply Forall_impl; [exact Ha2 |]. intros e.
    apply download_event_mono; [by rewrite Hd1 | done].
  - intros p c Hc. destruct (Hp2 _ _ Hc) as [Hc1 | (item & Hin & -> & Hsum)].
    + destruct (Hp1 _ _ Hc1) as [? | (item & Hin & -> & Hsum)]; [by left |].
      right. exists item. rewrite elem_of_app. auto.
    + right. exists item. rewrite elem_of_app. auto.
Qed.

Lemma item_step_spec (dim : bool) item (st : State) r st' :
  item_step w loc dim item st = (r, st') →
  let p := join loc (filename item.2) in
  evolves w loc [item] st st' ∧
  (path_exists st p = true → r = Ok tt ∧ st' = st) ∧
  (path_exists st p = false →
   match r with
   | Ok _ => dim = true ∧ path_exists st' p = true
   | Err e => item_error dim loc item e ∧ (dim = false → st' = st)
   end).
Proof.
  destruct item as [file_type meta].
  unfold item_step, bind, exists_, raise, ret, emit; cbv beta iota zeta.
  cbn [fst snd]. set (p := join loc (filename meta)).
  destruct (path_exists st p) eqn:E; cbn [negb].
  { intros [<- <-]%pair_equal_spec. split; [apply evolves_refl | done]. }
  destruct dim; cbn [negb].
  2:{ intros [<- <-]%pair_equal_spec. split; [apply evolves_refl |].
      split; [done |]. intros _. by unfold item_error. }
  set (st0 := {| dirs := dirs st; files := files st; clock := clock st;
                 trace := EvLogInfo _ :: trace st |}).
  assert (E0 : path_exists st0 p = false) by exact E.
  destruct (_fetch_remote w meta loc false st0) as [[q|e] st1] eqn:F;
    destruct (fetch_remote_spec w meta loc st0 _ _ E0 F)
      as (Hd & (new & Ht & Hall) & Hr);
    intros [<- <-]%pair_equal_spec.
  - destruct Hr as (-> & body & Hf & Hsum). fold p in Hf.
    assert (Hnone : files st !! p = None).
    { destruct (files st !! p) eqn:L; [|done].
      by rewrite (path_exists_file st p _ L) in E. }
    split; [split |].
    + done.
    + rewrite Hf. by apply insert_subseteq.
    + exists (new ++ [EvFetchRemote meta loc; EvLogInfo
                (downloading_message file_type (url meta) p)]).
      rewrite Ht, <- app_assoc. split; [done |].
      apply Forall_app. split.
      * eapply Forall_impl; [exact Hall |]. by intros ? ->.
      * repeat constructor. exact E.
    + intros p' c. rewrite Hf. destruct (decide (p = p')) as [<- | Hne].
      * rewrite lookup_insert_eq. intros [= <-]. right.
        exists (file_type, meta). split; [by apply list_elem_of_singleton | done].
      * rewrite lookup_insert_ne by done. auto.
    + split; [done |]. intros _. split; [done |].
      eapply path_exists_file. rewrite Hf. apply lookup_insert_eq.
  - destruct Hr as (Hf & He). split; [split |].
    + done.
    + by rewrite Hf.
    + exists (new ++ [EvFetchRemote meta loc; EvLogInfo
                (downloading_message file_type (url meta) p)]).
      rewrite Ht, <- app_assoc. split; [done |].
      apply Forall_app. split.
      * eapply Forall_impl; [exact Hall |]. by intros ? ->.
      * repeat constructor. exact E.
    + intros p' c. rewrite Hf. auto.
    + split; [done |]. intros _. split; [exact He | done].
Qed.
End LoopFacts.

Section LoopRuns.
Context (w : World) (loc : string).

Lemma item_step_present (dim : bool) item (st : State) :
  path_exists st (join loc (filename item.2)) = true →
  item_step w loc dim item st = (Ok tt, st).
Proof.
  intros Hp. destruct (item_step w loc dim item st) as [r st'] eqn:S.
  destruct (item_step_spec w loc dim item st r st' S) as (_ & Hyes & _).
  by destruct (Hyes Hp) as [-> ->].
Qed.

Lemma item_step_offline item (st : State) :
  path_exists st (join loc (filename item.2)) = false →
  item_step w loc false item st =
  (Err (IOError (not_found_message item.1 (join loc (filename item.2)))), st).
Proof.
  intros Hp. destruct (item_step w loc false item st) as [r st'] eqn:S.
  destruct (item_step_spec w loc false item st r st' S) as (_ & _ & Hno).
  specialize (Hno Hp). destruct r as [[]|e].
  - by destruct Hno.
  - destruct Hno as [-> ->]; done.
Qed.

Lemma for_items_spec (dim : bool) items (recs : Bunch) (st : State) r st' :
  for_items w loc dim items recs st = (r, st') →
  evolves w loc items st st' ∧
  match r with
  | Ok recs' =>
      recs' = assign_all loc items recs ∧
      Forall (λ item, path_exists st' (join loc (filename item.2)) = true) items
  | Err e => ∃ item, item ∈ items ∧ item_error dim loc item e
  end.
Proof.
  revert recs st. induction items as [|item rest IH]; intros recs st.
  - intros [<- <-]%pair_equal_spec. split; [apply evolves_refl | done].
  - rewrite for_items_cons.
    destruct (item_step w loc dim item st) as [[[]|e] st1] eqn:S;
      destruct (item_step_spec w loc dim item st _ _ S) as (Hev & Hyes & Hno).
    + intros H. destruct (IH _ _ H) as [Hev' Hr].
      split; [exact (evolves_trans w loc [item] rest _ _ _ Hev Hev') |].
      destruct r as [recs'|e']; [|destruct Hr as (i & Hi & He)].
      * destruct Hr as [-> Hall]. split; [done |]. constructor; [|done].
        destruct Hev' as [Hd Hf _ _].
        apply (path_exists_mono st1 st'); [set_solver | done |].
        destruct (path_exists st (join loc (filename item.2))) eqn:E.
        -- by destruct (Hyes eq_refl) as [_ ->].
        -- by destruct (Hno eq_refl).
      * exists i. split; [by apply list_elem_of_further | done].
    + intros [<- <-]%pair_equal_spec. split.
      * destruct Hev as [? ? ? Hp]. split; try done.
        intros p c Hc. destruct (Hp p c Hc) as [? | (i & ?%list_elem_of_singleton & ?)];
          [by left |]. right. exists i. subst i. split; [apply list_elem_of_here | done].
      * exists item. split; [apply list_elem_of_here |].
        destruct (path_exists st (join loc (filename item.2))) eqn:E.
        -- by destruct (Hyes eq_refl).
        -- by destruct (Hno eq_refl).
Qed.

(** With every file in place the loop changes nothing, whatever
    [download_if_missing] is. *)
Lemma for_items_all_present (dim : bool) items (recs : Bunch) (st : State) :
  first_missing st loc items = None →
  for_items w loc dim items recs st = (Ok (assign_all loc items recs), st).
Proof.
  revert recs. induction items as [|item rest IH]; intros recs; [done |].
  unfold first_missing. cbn [List.find]. intros Hrest. rewrite for_items_cons.
  destruct (path_exists st (join loc (filename item.2))) eqn:E; [|done].
  rewrite item_step_present by done. by apply IH.
Qed.

(** With downloads disabled the loop never changes the state: it stops at
    the first missing file with the [IOError] of the source. *)
Lemma for_items_offline items (recs : Bunch) (st : State) :
  for_items w loc false items recs st =
  (match first_missing st loc items with
   | Some item =>
       Err (IOError (not_found_message item.1 (join loc (filename item.2))))
   | None => Ok (assign_all loc items recs)
   end, st).
Proof.
  revert recs. induction items as [|item rest IH]; intros recs; [done |].
  rewrite for_items_cons. unfold first_missing. cbn [List.find].
  destruct (path_exists st (join loc (filename item.2))) eqn:E; cbn [negb].
  - rewrite item_step_present by done. apply IH.
  - by rewrite item_step_offline.
Qed.

Lemma for_items_app (dim : bool) pre post (recs recs1 : Bunch) (st st1 : State) :
  for_items w loc dim pre recs st = (Ok recs1, st1) →
  for_items w loc dim (pre ++ post) recs st = for_items w loc dim post recs1 st1.
Proof.
  revert recs st. induction pre as [|item pre IH]; intros recs st.
  - by intros [= -> ->].
  - rewrite <- app_comm_cons, !for_items_cons.
    destruct (item_step w loc dim item st) as [[[]|e] st2]; [apply IH | done].
Qed.

Lemma first_missing_None (st : State) items :
  first_missing st loc items = None ↔
  Forall (λ item, path_exists st (join loc (filename item.2)) = true) items.
Proof.
  unfold first_missing. induction items as [|item rest IH]; simpl.
  - split; [by constructor | done].
  - destruct (path_exists st (join loc (filename item.2))) eqn:E; simpl.
    + rewrite IH. split; [by constructor | by inversion 1].
    + split; [done |]. inversion 1; congruence.
Qed.

Lemma first_missing_Some (st : State) items item :
  first_missing st loc items = Some item →
  item ∈ items ∧ path_exists st (join loc (filename item.2)) = false.
Proof.
  unfold first_missing. intros H. apply find_some in H as [Hin Hp].
  split; [by apply list_elem_of_In | by apply negb_true_iff].
Qed.

Lemma first_missing_ext (st st' : State) items :
  (∀ item, item ∈ items →
     path_exists st' (join loc (filename item.2)) =
     path_exists st (join loc (filename item.2))) →
  first_missing st' loc items = first_missing st loc items.
Proof.
  unfold first_missing. induction items as [|item rest IH]; intros H; [done |].
  simpl. rewrite (H item) by apply list_elem_of_here.
  destruct (negb _); [done |]. apply IH. intros i Hi. apply H.
  by apply list_elem_of_further.
Qed.

Lemma assign_all_cons item rest (recs : Bunch) :
  assign_all loc (item :: rest) recs =
  assign_all loc rest (<[item.1 := join loc (filename item.2)]> recs).
Proof. reflexivity. Qed.

Lemma dom_assign_all items (recs : Bunch) :
  dom (assign_all loc items recs) = dom recs ∪ list_to_set items.*1.
Proof.
  revert recs. induction items as [|item rest IH]; intros recs.
  - unfold assign_all. simpl. set_solver.
  - rewrite assign_all_cons, IH, dom_insert_L, fmap_cons, list_to_set_cons.
    set_solver.
Qed.

Lemma lookup_assign_all_notin items (recs : Bunch) (k : string) :
  k ∉ items.*1 → assign_all loc items recs !! k = recs !! k.
Proof.
  revert recs. induction items as [|item rest IH]; intros recs; [done |].
  rewrite fmap_cons. intros [Hne Hin]%not_elem_of_cons.
  rewrite assign_all_cons, IH by done. by rewrite lookup_insert_ne.
Qed.

Lemma lookup_assign_all items (recs : Bunch) (role : string) meta :
  NoDup items.*1 → (role, meta) ∈ items →
  assign_all loc items recs !! role = Some (join loc (filename meta)).
Proof.
  revert recs. induction items as [|item rest IH]; intros recs.
  - by intros _ ?%elem_of_nil.
  - rewrite fmap_cons. intros [Hnotin Hnd]%NoDup_cons [<- | Hin]%elem_of_cons.
    + rewrite assign_all_cons, lookup_assign_all_notin by done.
      apply lookup_insert_eq.
    + rewrite assign_all_cons. by apply IH.
Qed.
End LoopRuns.

(** ** The fetch function as a whole *)

Section FetchFacts.
Context (w : World) (NAME DESCRIPTION : string).
Context (ARCHIVE : list (string * RemoteFileMetadata)).
Context (data_home : option string) (dim : bool).

Let loc := data_location_of w NAME data_home.
Let descr := description_path w DESCRIPTION.

Lemma fetch_unfold (st : State) :
  fetch w NAME DESCRIPTION ARCHIVE data_home dim st =
  match ensure_location w loc st with
  | (Err e, s1) => (Err e, s1)
  | (Ok _, s1) =>
      match for_items w loc dim ARCHIVE ∅ s1 with
      | (Err e, s2) => (Err e, s2)
      | (Ok recs, s2) =>
          match open_read descr s2 with
          | (Ok text, s3) => (Ok (<["DESCR" := text]> recs), s3)
          | (Err e, s3) => (Err e, s3)
          end
      end
  end.
Proof.
  unfold fetch, ensure_location, bind, exists_, ret. cbv beta iota zeta.
  fold loc. fold descr.
  destruct (if negb (path_exists st loc) then makedirs w loc st else (Ok (), st))
    as [[[]|e] s1]; [|done].
  destruct (for_items w loc dim ARCHIVE ∅ s1) as [[recs|e] s2]; [|done].
  by destruct (open_read descr s2) as [[text|e] s3].
Qed.

(** The three stages of a call and how its outcome arises from them. *)
Lemma fetch_inv (st : State) r st' :
  fetch w NAME DESCRIPTION ARCHIVE data_home dim st = (r, st') →
  ∃ r1 s1, ensure_location w loc st = (r1, s1) ∧
  match r1 with
  | Err e => r = Err e ∧ st' = s1
  | Ok _ =>
      ∃ r2 s2, for_items w loc dim ARCHIVE ∅ s1 = (r2, s2) ∧
      match r2 with
      | Err e => r = Err e ∧ st' = s2
      | Ok recs =>
          dirs st' = dirs s2 ∧ files st' = files s2 ∧ clock st' = clock s2 ∧
          trace st' = EvOpen descr :: trace s2 ∧
          r = match files s2 !! descr with
              | Some text => Ok (<["DESCR" := text]> recs)
              | None => Err (FileNotFoundError descr)
              end
      end
  end.
Proof.
  rewrite fetch_unfold. intros H.
  destruct (ensure_location w loc st) as [[[]|e] s1] eqn:E1.
  2:{ exists (Err e), s1. by injection H as <- <-. }
  exists (Ok tt), s1. split; [done |].
  destruct (for_items w loc dim ARCHIVE ∅ s1) as [[recs|e] s2] eqn:E2.
  2:{ exists (Err e), s2. by injection H as <- <-. }
  exists (Ok recs), s2. split; [done |].
  destruct (open_read descr s2) as [r3 s3] eqn:E3.
  destruct (open_read_spec _ _ _ _ E3) as (Hd & Hf & Hc & Ht & Hr).
  destruct r3 as [text|e]; injection H as <- <-; repeat split; try done;
    destruct (files s2 !! descr); congruence.
Qed.

Lemma well_formed_inv :
  well_formed NAME ARCHIVE = true →
  is_empty NAME = false ∧ has_sep NAME = false ∧
  ∀ item, item ∈ ARCHIVE → startswith_sep (filename item.2) = false.
Proof.
  unfold well_formed.
  intros [[H1%negb_true_iff H2%negb_true_iff]%andb_true_iff H3]%andb_true_iff.
  repeat split; [done | done |]. intros item Hin%list_elem_of_In.
  rewrite forallb_forall in H3. by apply negb_true_iff, H3.
Qed.

(** Creating the dataset directory does not make any file of the archive
    appear. *)
Lemma ensure_location_keeps_items (st : State) r s1 :
  well_formed NAME ARCHIVE = true →
  ensure_location w loc st = (r, s1) →
  ∀ item, item ∈ ARCHIVE →
    path_exists s1 (join loc (filename item.2)) =
    path_exists st (join loc (filename item.2)).
Proof.
  intros (Hne & Hsep & Hrel)%well_formed_inv H item Hin.
  destruct (ensure_location_spec _ _ _ _ _ H) as (Hf & _ & _ & Hsub & Hsup & _).
  destruct (join_name_normal (get_data_home w data_home) NAME Hne Hsep)
    as [Hl1 Hl2].
  pose proof (below_not_created loc (filename item.2) Hl1 Hl2 (Hrel _ Hin))
    as Hnew.
  unfold path_exists, is_dir, is_file. rewrite Hf. f_equal.
  apply bool_decide_ext. split; [|set_solver].
  intros Hin1. apply Hsup in Hin1.
  apply elem_of_union in Hin1 as [? | Hc%elem_of_list_to_set]; done.
Qed.
End FetchFacts.

Section FetchEffects.
Context (w : World) (NAME DESCRIPTION : string).
Context (ARCHIVE : list (string * RemoteFileMetadata)).
Context (data_home : option string) (dim : bool).

Let loc := data_location_of w NAME data_home.
Let descr := description_path w DESCRIPTION.

(** Everything a call may do to the state, whatever its outcome: files
    are only added, and only verified ones at paths of the archive;
    directories are only added, and only the dataset directory and its
    ancestors; the history grows by the events of the loop, then possibly
    by the opening of the description, which happens only once every file
    of the archive is in place. *)
Lemma fetch_effects (st : State) r st' :
  fetch w NAME DESCRIPTION ARCHIVE data_home dim st = (r, st') →
  files st ⊆ files st' ∧
  dirs st ⊆ dirs st' ∧
  dirs st' ⊆ dirs st ∪ list_to_set (ancestors loc ++ [loc]) ∧
  (∀ p c, files st' !! p = Some c →
     files st !! p = Some c ∨
     ∃ item, item ∈ ARCHIVE ∧ p = join loc (filename item.2) ∧
             sha256 w c = checksum item.2) ∧
  ∃ opens new,
    trace st' = opens ++ new ++ trace st ∧
    Forall (download_event st) new ∧
    (opens = [] ∨
     opens = [EvOpen descr] ∧
     Forall (λ item, path_exists st' (join loc (filename item.2)) = true)
            ARCHIVE).
Proof.
  intros F. destruct (fetch_inv _ _ _ _ _ _ _ _ _ F) as (r1 & s1 & E1 & H1).
  fold loc in E1, H1. fold descr in H1.
  destruct (ensure_location_spec _ _ _ _ _ E1)
    as (Hf1 & Hc1 & Ht1 & Hsub & Hsup & _).
  destruct r1 as [[]|e].
  2:{ destruct H1 as [-> ->]. rewrite Hf1.
      repeat split; try done; [by left |].
      exists [], []. rewrite Ht1. repeat split; [done | by left]. }
  destruct H1 as (r2 & s2 & E2 & H2).
  destruct (for_items_spec _ _ _ _ _ _ _ _ E2)
    as [[Hd2 Hf2 (new & Ht2 & Hall) Hprov] Hr2].
  rewrite Hf1 in Hf2, Hprov. rewrite Ht1 in Ht2.
  assert (Hall' : Forall (download_event st) new).
  { eapply Forall_impl; [exact Hall |]. intros e.
    apply download_event_mono; [done | by rewrite Hf1]. }
  destruct r2 as [recs|e].
  - destruct H2 as (Hd3 & Hf3 & _ & Ht3 & _). destruct Hr2 as [_ Hres].
    rewrite Hf3, Hd3, Hd2. repeat split; try done.
    exists [EvOpen descr], new. rewrite Ht3, Ht2. repeat split; try done.
    right. split; [done |]. eapply Forall_impl; [exact Hres |].
    intros item. simpl. intros Hp. by rewrite (path_exists_ext s2 st').
  - destruct H2 as [-> ->]. rewrite Hd2. repeat split; try done.
    exists [], new. rewrite Ht2. repeat split; [done | by left].
Qed.

(** With downloads disabled a call leaves files, clock and history as
    they are, except for opening the description. *)
Lemma fetch_offline_effects (st : State) r st' :
  dim = false →
  fetch w NAME DESCRIPTION ARCHIVE data_home dim st = (r, st') →
  files st' = files st ∧ clock st' = clock st ∧
  (trace st' = trace st ∨ trace st' = EvOpen descr :: trace st).
Proof.
  intros -> F. destruct (fetch_inv _ _ _ _ _ _ _ _ _ F) as (r1 & s1 & E1 & H1).
  fold loc in E1, H1. fold descr in H1.
  destruct (ensure_location_spec _ _ _ _ _ E1) as (Hf1 & Hc1 & Ht1 & _).
  destruct r1 as [[]|e]; [|by destruct H1 as [-> ->]; auto].
  destruct H1 as (r2 & s2 & E2 & H2).
  rewrite for_items_offline in E2. injection E2 as <- <-.
  destruct (first_missing s1 loc ARCHIVE).
  - destruct H2 as [-> ->]. auto.
  - destruct H2 as (_ & Hf3 & Hc3 & Ht3 & _).
    rewrite Hf3, Hc3, Ht3, Hf1, Hc1, Ht1. auto.
Qed.

(** The outcome of a call with downloads disabled, told from the state
    it starts in. *)
Lemma fetch_offline_result (st : State) r st' :
  well_formed NAME ARCHIVE = true →
  dir_ready w loc st = true →
  fetch w NAME DESCRIPTION ARCHIVE data_home false st = (r, st') →
  match first_missing st loc ARCHIVE with
  | Some item =>
      r = Err (IOError (not_found_message item.1
                          (join loc (filename item.2)))) ∧
      trace st' = trace st
  | None =>
      r = match files st !! descr with
          | Some text => Ok (<["DESCR" := text]> (assign_all loc ARCHIVE ∅))
          | None => Err (FileNotFoundError descr)
          end
  end.
Proof.
  intros Hwf Hready F.
  destruct (fetch_inv _ _ _ _ _ _ _ _ _ F) as (r1 & s1 & E1 & H1).
  fold loc in E1, H1. fold descr in H1.
  unfold dir_ready in Hready. rewrite E1 in Hready.
  destruct r1 as [[]|e]; [|done].
  destruct (ensure_location_spec _ _ _ _ _ E1) as (Hf1 & _ & Ht1 & _).
  destruct H1 as (r2 & s2 & E2 & H2).
  rewrite for_items_offline in E2. injection E2 as <- <-.
  rewrite (first_missing_ext loc st s1) in H2
    by (by eapply ensure_location_keeps_items).
  destruct (first_missing st loc ARCHIVE).
  - destruct H2 as [-> ->]. done.
  - destruct H2 as (_ & _ & _ & _ & ->). by rewrite Hf1.
Qed.
End FetchEffects.

Section FetchOutcome.
Context (w : World) (NAME DESCRIPTION : string).
Context (ARCHIVE : list (string * RemoteFileMetadata)).
Context (data_home : option string) (dim : bool).

Let loc := data_location_of w NAME data_home.
Let descr := description_path w DESCRIPTION.

(** What a returned bundle is, and what holds when it is returned. *)
Lemma fetch_success (st : State) b st' :
  fetch w NAME DESCRIPTION ARCHIVE data_home dim st = (Ok b, st') →
  ∃ text,
    files st' !! descr = Some text ∧
    b = <["DESCR" := text]> (assign_all loc ARCHIVE ∅) ∧
    Forall (λ item, path_exists st' (join loc (filename item.2)) = true)
           ARCHIVE ∧
    path_exists st' loc = true.
Proof.
  intros F. destruct (fetch_inv _ _ _ _ _ _ _ _ _ F) as (r1 & s1 & E1 & H1).
  fold loc in E1, H1. fold descr in H1.
  destruct r1 as [[]|e]; [|by destruct H1].
  destruct H1 as (r2 & s2 & E2 & H2).
  destruct (for_items_spec _ _ _ _ _ _ _ _ E2) as [[Hd2 Hf2 _ _] Hr2].
  destruct r2 as [recs|e]; [|by destruct H2].
  destruct H2 as (Hd3 & Hf3 & _ & _ & Hr). destruct Hr2 as [-> Hall].
  destruct (files s2 !! descr) as [text|] eqn:L; [|done].
  injection Hr as ->. exists text. rewrite Hf3. repeat split; try done.
  - eapply Forall_impl; [exact Hall |]. intros item. simpl.
    intros Hp. by rewrite (path_exists_ext s2 st').
  - rewrite (path_exists_ext s2 st') by done.
    apply (path_exists_mono s1 s2); [by rewrite Hd2 | done |].
    by eapply ensure_location_ok.
Qed.

(** The downloader is only ever called for a path that did not exist
    when the call started. *)
Lemma fetch_downloads_only_absent (st : State) r st' new m d :
  fetch w NAME DESCRIPTION ARCHIVE data_home dim st = (r, st') →
  trace st' = new ++ trace st →
  EvFetchRemote m d ∈ new →
  path_exists st (join d (filename m)) = false.
Proof.
  intros F Ht Hin.
  destruct (fetch_effects _ _ _ _ _ _ _ _ _ F)
    as (_ & _ & _ & _ & opens & new' & Ht' & Hall & Hopens).
  rewrite Ht', app_assoc in Ht. apply app_inv_tail in Ht. subst new.
  apply elem_of_app in Hin as [Hin | Hin].
  - destruct Hopens as [-> | [-> _]]; [by apply elem_of_nil in Hin |].
    by apply list_elem_of_singleton in Hin.
  - rewrite Forall_forall in Hall. exact (Hall _ Hin).
Qed.

Lemma fetch_bundle_lookup (st : State) b st' role meta :
  fetch w NAME DESCRIPTION ARCHIVE data_home dim st = (Ok b, st') →
  roles_ok ARCHIVE → (role, meta) ∈ ARCHIVE →
  b !! role = Some (join loc (filename meta)).
Proof.
  intros F [Hnd Hdescr] Hin.
  destruct (fetch_success _ _ _ F) as (text & _ & -> & _).
  rewrite lookup_insert_ne.
  - by apply lookup_assign_all.
  - intros <-. apply Hdescr. apply list_elem_of_fmap. by exists ("DESCR", meta).
Qed.
End FetchOutcome.

Section FetchAgain.
Context (w : World).

Lemma ensure_location_present (loc : string) (st : State) :
  path_exists st loc = true → ensure_location w loc st = (Ok tt, st).
Proof. intros H. unfold ensure_location, bind, exists_, ret. by rewrite H. Qed.

Lemma dir_ready_present (loc : string) (st : State) :
  path_exists st loc = true → dir_ready w loc st = true.
Proof. intros H. unfold dir_ready. by rewrite ensure_location_present. Qed.

Lemma fetch_ok_dir_ready NAME DESCRIPTION ARCHIVE data_home dim st b st' :
  fetch w NAME DESCRIPTION ARCHIVE data_home dim st = (Ok b, st') →
  dir_ready w (data_location_of w NAME data_home) st = true.
Proof.
  intros F. destruct (fetch_inv _ _ _ _ _ _ _ _ _ F) as (r1 & s1 & E1 & H1).
  unfold dir_ready. rewrite E1. destruct r1; [done | by destruct H1].
Qed.

Lemma open_read_present (p text : string) (st : State) :
  files st !! p = Some text →
  open_read p st =
  (Ok text, {| dirs := dirs st; files := files st; clock := clock st;
               trace := EvOpen p :: trace st |}).
Proof. intros H. unfold open_read, bind, emit. simpl. by rewrite H. Qed.
End FetchAgain.

(** ** The two archives of the repository *)

Lemma adk_equilibrium_roles_ok : roles_ok adk_equilibrium.ARCHIVE.
Proof. unfold roles_ok. by_evaluation. Qed.

Lemma ifabp_water_roles_ok : roles_ok ifabp_water.ARCHIVE.
Proof. unfold roles_ok. by_evaluation. Qed.

Lemma adk_equilibrium_well_formed :
  well_formed adk_equilibrium.NAME adk_equilibrium.ARCHIVE = true.
Proof. vm_compute. reflexivity. Qed.

Lemma ifabp_water_well_formed :
  well_formed ifabp_water.NAME ifabp_water.ARCHIVE = true.
Proof. vm_compute. reflexivity. Qed.

(** ** Messages and what they identify *)

Lemma not_found_message_role (file_type local_path : string) :
  contains file_type (not_found_message file_type local_path) = true.
Proof. unfold not_found_message. apply contains_middle. Qed.

Lemma not_found_message_path (file_type local_path : string) :
  contains local_path (not_found_message file_type local_path) = true.
Proof.
  unfold not_found_message.
  replace ("Data " +:+ file_type +:+ "=" +:+ local_path +:+
           " not found and `download_if_missing` is False")
    with (("Data " +:+ file_type +:+ "=") +:+ local_path +:+
          " not found and `download_if_missing` is False")
    by (by rewrite !append_assoc).
  apply contains_middle.
Qed.

Lemma identifies_first (e : exception) (s t : string) rest :
  error_text e = t :: rest → contains s t = true → identifies e s = true.
Proof. intros He Hc. unfold identifies. rewrite He. simpl. by rewrite Hc. Qed.

Lemma identifies_second (e : exception) (s t0 t : string) rest :
  error_text e = t0 :: t :: rest → contains s t = true →
  identifies e s = true.
Proof.
  intros He Hc. unfold identifies. rewrite He. simpl. rewrite Hc.
  apply orb_true_r.
Qed.

(** Every exception of the loop names the local path of the file it is
    about, and with it whatever that path contains. *)
Lemma item_error_identifies (dim : bool) (loc : string) item e (s : string) :
  item_error dim loc item e →
  contains s (join loc (filename item.2)) = true →
  identifies e s = true.
Proof.
  unfold item_error. intros He Hs. destruct dim.
  - destruct He as [-> | [-> | (actual & -> & _)]].
    + by eapply identifies_first.
    + by eapply identifies_second.
    + by eapply identifies_first.
  - subst e. eapply identifies_first; [done |].
    eapply contains_trans; [exact Hs | apply not_found_message_path].
Qed.

Lemma item_step_online (w : World) (loc : string) item (st : State) :
  path_exists st (join loc (filename item.2)) = false →
  item_step w loc true item st =
  match _fetch_remote w item.2 loc false
          (emit (EvLogInfo (downloading_message item.1 (url item.2)
                              (join loc (filename item.2)))) st).2 with
  | (Ok _, s) => (Ok tt, s)
  | (Err e, s) => (Err e, s)
  end.
Proof.
  intros Hp. unfold item_step, bind, exists_, ret. cbv beta iota zeta.
  rewrite Hp. cbn [negb fst snd emit].
  by destruct (_fetch_remote w item.2 loc false _) as [[?|?] ?].
Qed.

(** ** Where a failing loop stops *)

Section LoopFailure.
Context (w : World) (loc : string).

Lemma item_step_failure (dim : bool) item (st : State) e st' :
  item_step w loc dim item st = (Err e, st') →
  files st' = files st ∧ dirs st' = dirs st.
Proof.
  destruct (path_exists st (join loc (filename item.2))) eqn:E.
  { by rewrite item_step_present. }
  destruct dim.
  2:{ rewrite item_step_offline by done. by intros [= <- <-]. }
  rewrite item_step_online by done.
  set (st0 := (emit _ st).2).
  assert (E0 : path_exists st0 (join loc (filename item.2)) = false) by exact E.
  destruct (_fetch_remote w item.2 loc false st0) as [[q|e1] st1] eqn:F;
    [done |].
  destruct (fetch_remote_spec _ _ _ _ _ _ E0 F) as (Hd & _ & Hf & _).
  by intros [= <- <-].
Qed.

Lemma for_items_failure (dim : bool) items (recs : Bunch) (st : State) e st' :
  for_items w loc dim items recs st = (Err e, st') →
  ∃ item, first_missing st' loc items = Some item ∧ item_error dim loc item e.
Proof.
  revert recs st. induction items as [|item rest IH]; intros recs st; [done |].
  rewrite for_items_cons.
  destruct (item_step w loc dim item st) as [[[]|e1] st1] eqn:S;
    destruct (item_step_spec w loc dim item st _ _ S) as (Hev & Hyes & Hno).
  - intros H. destruct (IH _ _ H) as (i & Hi & He). exists i. split; [|done].
    destruct (for_items_spec _ _ _ _ _ _ _ _ H) as [[Hd Hf _ _] _].
    unfold first_missing in *. cbn [List.find].
    rewrite (path_exists_mono st1 st'); [done | by rewrite Hd | done |].
    destruct (path_exists st (join loc (filename item.2))) eqn:E.
    + by destruct (Hyes eq_refl) as [_ ->].
    + by destruct (Hno eq_refl).
  - intros [= <- <-]. exists item.
    destruct (path_exists st (join loc (filename item.2))) eqn:E;
      [by destruct (Hyes eq_refl) |].
    destruct (Hno eq_refl) as [He _]. split; [|done].
    destruct (item_step_failure _ _ _ _ _ S) as [Hf Hd].
    unfold first_missing. cbn [List.find].
    by rewrite (path_exists_ext st st1), E.
Qed.
End LoopFailure.

(** * The claims *)

(** C3.  A fetch call with [download_if_missing=False] for which the file
    of some role is not cached fails, and does so without any network
    access: the downloader is never called, no request is made, and the
    cached files are untouched.  Where the dataset directory exists or
    could be created, the failure is the [IOError] that the source raises
    for the first missing role. *)
Theorem offline_missing_raises_without_network
    (w : World) (NAME DESCRIPTION : string)
    (ARCHIVE : list (string * RemoteFileMetadata))
    (data_home : option string) (st : State) :
  let loc := data_location_of w NAME data_home in
  well_formed NAME ARCHIVE = true →
  (∃ item, item ∈ ARCHIVE ∧
           path_exists st (join loc (filename item.2)) = false) →
  ∃ e st',
    fetch w NAME DESCRIPTION ARCHIVE data_home false st = (Err e, st') ∧
    trace st' = trace st ∧ clock st' = clock st ∧ files st' = files st ∧
    (dir_ready w loc st = true →
     ∃ item, first_missing st loc ARCHIVE = Some item ∧
             e = IOError (not_found_message item.1
                            (join loc (filename item.2)))).
Proof.
  intros loc Hwf (item & Hin & Hmiss).
  destruct (fetch w NAME DESCRIPTION ARCHIVE data_home false st)
    as [r st'] eqn:F.
  destruct (fetch_offline_effects _ _ _ _ _ _ _ _ _ eq_refl F)
    as (Hf & Hc & _).
  destruct (dir_ready w loc st) eqn:R.
  - pose proof (fetch_offline_result _ _ _ _ _ _ _ _ Hwf R F) as Hres.
    fold loc in Hres.
    destruct (first_missing st loc ARCHIVE) as [it|] eqn:FM.
    + destruct Hres as [-> Ht]. eexists _, st'. repeat split; try done.
      intros _. by exists it.
    + apply first_missing_None in FM. rewrite Forall_forall in FM.
      specialize (FM item Hin). congruence.
  - destruct (fetch_inv _ _ _ _ _ _ _ _ _ F) as (r1 & s1 & E1 & H1).
    unfold dir_ready in R. fold loc in E1. rewrite E1 in R.
    destruct r1 as [[]|e]; [done |]. destruct H1 as [-> ->].
    destruct (ensure_location_spec _ _ _ _ _ E1) as (_ & _ & Ht & _).
    exists e, s1. repeat split; done.
Qed.

Lemma offline_missing_raises_without_network_witness :
  ∃ e st',
    ifabp_water.fetch_ifabp_water example_world None false partial_cache_state
      = (Err e, st') ∧
    trace st' = trace partial_cache_state ∧
    clock st' = clock partial_cache_state ∧
    files st' = files partial_cache_state ∧
    e = IOError (not_found_message "structure"
           "/home/user/MDAnalysis_data/ifabp_water/ifabp_water_0.pdb").
Proof.
  destruct (offline_missing_raises_without_network example_world
              ifabp_water.NAME ifabp_water.DESCRIPTION ifabp_water.ARCHIVE
              None partial_cache_state)
    as (e & st' & F & Ht & Hc & Hf & He).
  - vm_compute. reflexivity.
  - exists ("structure",
            {| filename := "ifabp_water_0.pdb";
               url := "https://ndownloader.figshare.com/files/12980636";
               checksum :=
                 "8ccf5f75fd85385921c0cb77f00281a93b933fc1261c42fc9492f43983448a72" |}).
    split; [|vm_compute; reflexivity].
    apply list_elem_of_further, list_elem_of_here.
  - exists e, st'. repeat (split; [assumption |]).
    destruct He as (item & FM & ->); [vm_compute; reflexivity |].
    vm_compute in FM. injection FM as <-. reflexivity.
Defined.

(** C9.  A fetch call with [download_if_missing=False] never calls the
    downloader and makes no request, whatever is cached: the only event
    it can add is the opening of the description.  If it returns a
    bundle, every file of the archive was present when it started; if a
    file is missing, it raises the [IOError] of the first missing role
    in the order of the archive (provided the dataset directory exists
    or could be created). *)
Theorem offline_never_downloads
    (w : World) (NAME DESCRIPTION : string)
    (ARCHIVE : list (string * RemoteFileMetadata))
    (data_home : option string) (st : State) r st' :
  let loc := data_location_of w NAME data_home in
  fetch w NAME DESCRIPTION ARCHIVE data_home false st = (r, st') →
  (∃ new, trace st' = new ++ trace st ∧
          Forall (λ e, is_network e = false) new) ∧
  clock st' = clock st ∧ files st' = files st ∧
  (well_formed NAME ARCHIVE = true →
   (∀ b, r = Ok b →
      Forall (λ item, path_exists st (join loc (filename item.2)) = true)
             ARCHIVE) ∧
   (∀ item, dir_ready w loc st = true →
      first_missing st loc ARCHIVE = Some item →
      r = Err (IOError (not_found_message item.1
                          (join loc (filename item.2)))))).
Proof.
  intros loc F.
  destruct (fetch_offline_effects _ _ _ _ _ _ _ _ _ eq_refl F)
    as (Hf & Hc & Ht).
  split; [|split; [done | split; [done |]]].
  { destruct Ht as [Ht | Ht]; rewrite Ht.
    - by exists [].
    - eexists [_]. split; [done |]. by repeat constructor. }
  intros Hwf. split.
  - intros b ->. apply first_missing_None.
    assert (R : dir_ready w loc st = true).
    { destruct (fetch_inv _ _ _ _ _ _ _ _ _ F) as (r1 & s1 & E1 & H1).
      unfold dir_ready. fold loc in E1. rewrite E1.
      destruct r1; [done | by destruct H1]. }
    pose proof (fetch_offline_result _ _ _ _ _ _ _ _ Hwf R F) as Hres.
    fold loc in Hres. destruct (first_missing st loc ARCHIVE); [|done].
    by destruct Hres.
  - intros item R FM.
    pose proof (fetch_offline_result _ _ _ _ _ _ _ _ Hwf R F) as Hres.
    fold loc in Hres. rewrite FM in Hres. by destruct Hres.
Qed.

Lemma offline_never_downloads_witness :
  ifabp_water.fetch_ifabp_water example_world None false partial_cache_state
  = (Err (IOError (not_found_message "structure"
             "/home/user/MDAnalysis_data/ifabp_water/ifabp_water_0.pdb")),
     partial_cache_state) ∧
  (∃ new, trace partial_cache_state = new ++ trace partial_cache_state ∧
          Forall (λ e, is_network e = false) new) ∧
  clock partial_cache_state = clock partial_cache_state ∧
  files partial_cache_state = files partial_cache_state.
Proof.
  assert (F : ifabp_water.fetch_ifabp_water example_world None false
                partial_cache_state
              = (Err (IOError (not_found_message "structure"
                   "/home/user/MDAnalysis_data/ifabp_water/ifabp_water_0.pdb")),
                 partial_cache_state)) by by_evaluation.
  split; [exact F |].
  destruct (offline_never_downloads example_world ifabp_water.NAME
              ifabp_water.DESCRIPTION ifabp_water.ARCHIVE None
              partial_cache_state _ _ F) as (H1 & H2 & H3 & _).
  auto.
Defined.

(** C1 (as the code has it).  A file already present at the final cache
    path is not verified: the call keeps it as it is, never calls the
    downloader for its path and, when it succeeds, returns the path
    whatever the checksum of the content.  Only a file that the call
    itself downloads is checked: it appears at the final path only with
    the checksum recorded for that path. *)
Theorem cached_files_kept_unverified
    (w : World) (NAME DESCRIPTION : string)
    (ARCHIVE : list (string * RemoteFileMetadata))
    (data_home : option string) (dim : bool) (st : State) r st'
    (role : string) (meta : RemoteFileMetadata) :
  let loc := data_location_of w NAME data_home in
  let p := join loc (filename meta) in
  fetch w NAME DESCRIPTION ARCHIVE data_home dim st = (r, st') →
  (role, meta) ∈ ARCHIVE →
  (∀ body, files st !! p = Some body →
     files st' !! p = Some body ∧
     (∀ new m d, trace st' = new ++ trace st → EvFetchRemote m d ∈ new →
                 join d (filename m) ≠ p) ∧
     (∀ b, r = Ok b → roles_ok ARCHIVE → b !! role = Some p)) ∧
  (∀ body, files st !! p = None → files st' !! p = Some body →
     ∃ item, item ∈ ARCHIVE ∧ join loc (filename item.2) = p ∧
             sha256 w body = checksum item.2).
Proof.
  intros loc p F Hin.
  destruct (fetch_effects _ _ _ _ _ _ _ _ _ F) as (Hf & _ & _ & Hprov & _).
  split.
  - intros body Hbody. split; [by eapply lookup_weaken |]. split.
    + intros new m d Ht Hev Heq.
      pose proof (fetch_downloads_only_absent _ _ _ _ _ _ _ _ _ _ _ _ F Ht Hev)
        as Habs.
      rewrite Heq in Habs. by rewrite (path_exists_file st p body) in Habs.
    + intros b -> Hroles. by eapply fetch_bundle_lookup.
  - intros body Hnone Hbody.
    destruct (Hprov _ _ Hbody) as [Hold | (item & Hitem & Hp & Hsum)].
    + congruence.
    + by exists item.
Qed.

Lemma cached_files_kept_unverified_witness :
  let run := adk_equilibrium.fetch_adk_equilibrium example_world None true
               mutated_cache_state in
  files run.2 !! "/home/user/MDAnalysis_data/adk_equilibrium/adk4AKE.psf"
    = Some "overwritten" ∧
  ∃ b : Bunch,
    run.1 = Ok b ∧
    b !! "topology"
      = Some "/home/user/MDAnalysis_data/adk_equilibrium/adk4AKE.psf".
Proof.
  intros run.
  set (b := <["DESCR" := "AdK equilibrium dataset"]>
              (assign_all "/home/user/MDAnalysis_data/adk_equilibrium"
                          adk_equilibrium.ARCHIVE ∅)).
  assert (F : fetch example_world adk_equilibrium.NAME
                adk_equilibrium.DESCRIPTION adk_equilibrium.ARCHIVE None true
                mutated_cache_state = (Ok b, run.2)) by by_evaluation.
  assert (L : files mutated_cache_state
                !! "/home/user/MDAnalysis_data/adk_equilibrium/adk4AKE.psf"
              = Some "overwritten") by (vm_compute; reflexivity).
  destruct (cached_files_kept_unverified example_world adk_equilibrium.NAME
              adk_equilibrium.DESCRIPTION adk_equilibrium.ARCHIVE None true
              mutated_cache_state (Ok b) run.2 "topology"
              {| filename := "adk4AKE.psf";
                 url := "https://ndownloader.figshare.com/files/8672230";
                 checksum :=
                   "1aa947d58fb41b6805dc1e7be4dbe65c6a8f4690f0bd7fc2ae03e7bd437085f4" |}
              F (list_elem_of_here _ _)) as [Hkept _].
  destruct (Hkept "overwritten" L) as (Hfile & _ & Hbundle).
  split; [exact Hfile |]. exists b. split; [by_evaluation |].
  exact (Hbundle b eq_refl adk_equilibrium_roles_ok).
Defined.

(** C1, counterexample.  Both files of [adk_equilibrium] are cached and
    the topology file does not have the recorded checksum.  The call
    returns a bundle with the path of that file, makes no request, and
    leaves the file as it found it.  The downloader of [example_world]
    would verify a cached file, but the existence test of the fetch
    function never lets the call reach it. *)
Lemma mutated_cached_file_returned_silently :
  let p := "/home/user/MDAnalysis_data/adk_equilibrium/adk4AKE.psf" in
  files mutated_cache_state !! p = Some "overwritten" ∧
  sha256 example_world "overwritten"
    ≠ "1aa947d58fb41b6805dc1e7be4dbe65c6a8f4690f0bd7fc2ae03e7bd437085f4" ∧
  adk_equilibrium.fetch_adk_equilibrium example_world None true
    mutated_cache_state
  = (Ok (list_to_map
           [("topology", p);
            ("trajectory",
             "/home/user/MDAnalysis_data/adk_equilibrium/1ake_007-nowater-core-dt240ps.dcd");
            ("DESCR", "AdK equilibrium dataset")]),
     {| dirs := dirs mutated_cache_state;
        files := files mutated_cache_state;
        clock := 0;
        trace :=
          [EvOpen "/opt/site-packages/MDAnalysisData/descr/adk_equilibrium.rst"] |}).
Proof.
  split; [|split].
  - vm_compute. reflexivity.
  - vm_compute. discriminate.
  - by_evaluation.
Defined.

(** C2.  Fetch is idempotent: after a successful call, a second call
    with the same arguments succeeds with the very same bundle (the same
    path for every role), and the only event it adds is the opening of
    the description: the downloader is not called and no request is
    made; files, directories and clock stay as the first call left
    them. *)
Theorem fetch_idempotent
    (w : World) (NAME DESCRIPTION : string)
    (ARCHIVE : list (string * RemoteFileMetadata))
    (data_home : option string) (dim : bool) (st : State) b st1 :
  fetch w NAME DESCRIPTION ARCHIVE data_home dim st = (Ok b, st1) →
  ∃ st2 new,
    fetch w NAME DESCRIPTION ARCHIVE data_home dim st1 = (Ok b, st2) ∧
    trace st2 = new ++ trace st1 ∧
    new = [EvOpen (description_path w DESCRIPTION)] ∧
    Forall (λ e, is_network e = false) new ∧
    clock st2 = clock st1 ∧ files st2 = files st1 ∧ dirs st2 = dirs st1.
Proof.
  intros F.
  destruct (fetch_success _ _ _ _ _ _ _ _ _ F)
    as (text & Hdescr & -> & Hall & Hloc).
  eexists _, [EvOpen (description_path w DESCRIPTION)]. split.
  - rewrite fetch_unfold, (ensure_location_present w _ _ Hloc).
    rewrite for_items_all_present by by apply first_missing_None.
    by rewrite (open_read_present _ _ _ Hdescr).
  - simpl. repeat split; try done. by repeat constructor.
Qed.

Lemma fetch_idempotent_witness :
  let first := adk_equilibrium.fetch_adk_equilibrium example_world None true
                 fresh_state in
  is_network <$> trace first.2
    = [false; true; true; false; true; true; false] ∧
  ∃ b st2 new,
    first.1 = Ok b ∧
    adk_equilibrium.fetch_adk_equilibrium example_world None true first.2
      = (Ok b, st2) ∧
    trace st2 = new ++ trace first.2 ∧
    Forall (λ e, is_network e = false) new ∧
    clock st2 = clock first.2 ∧ files st2 = files first.2.
Proof.
  intros first. split; [vm_compute; reflexivity |].
  set (b := <["DESCR" := "AdK equilibrium dataset"]>
              (assign_all "/home/user/MDAnalysis_data/adk_equilibrium"
                          adk_equilibrium.ARCHIVE ∅)).
  assert (F : fetch example_world adk_equilibrium.NAME
                adk_equilibrium.DESCRIPTION adk_equilibrium.ARCHIVE None true
                fresh_state = (Ok b, first.2)) by by_evaluation.
  destruct (fetch_idempotent example_world adk_equilibrium.NAME
              adk_equilibrium.DESCRIPTION adk_equilibrium.ARCHIVE None true
              fresh_state b first.2 F)
    as (st2 & new & F2 & Ht & _ & Hnet & Hc & Hf & _).
  exists b, st2, new. split; [by_evaluation |]. by repeat split.
Defined.

(** C5.  A successful fetch call maps every declared role to the path
    [join(join(data_home, NAME), filename)], which ends in the declared
    file name and is [<data_home>/<NAME>/<filename>] for a normalised
    data home; that path exists (in the sense of [os.path.exists]) when
    the call returns, and it is a regular file unless a directory of that
    name was there before the call. *)
Theorem bundle_paths_exist
    (w : World) (NAME DESCRIPTION : string)
    (ARCHIVE : list (string * RemoteFileMetadata))
    (data_home : option string) (dim : bool) (st : State) b st'
    (role : string) (meta : RemoteFileMetadata) :
  let root := get_data_home w data_home in
  let p := join (join root NAME) (filename meta) in
  well_formed NAME ARCHIVE = true → roles_ok ARCHIVE →
  fetch w NAME DESCRIPTION ARCHIVE data_home dim st = (Ok b, st') →
  (role, meta) ∈ ARCHIVE →
  b !! role = Some p ∧
  endswith p (filename meta) = true ∧
  path_exists st' p = true ∧
  (is_dir st p = false → is_file st' p = true) ∧
  (is_empty root = false → endswith_sep root = false →
   p = root +:+ "/" +:+ NAME +:+ "/" +:+ filename meta).
Proof.
  intros root p Hwf Hroles F Hin.
  destruct (well_formed_inv _ _ Hwf) as (Hne & Hsep & Hrel).
  destruct (join_name_normal root NAME Hne Hsep) as [Hl1 Hl2].
  pose proof (Hrel _ Hin) as Hfn. simpl in Hfn.
  destruct (fetch_success _ _ _ _ _ _ _ _ _ F) as (_ & _ & _ & Hall & _).
  rewrite Forall_forall in Hall. pose proof (Hall _ Hin) as Hp. simpl in Hp.
  split; [by eapply fetch_bundle_lookup |].
  split; [apply join_endswith |]. split; [exact Hp |]. split.
  - intros Hnd.
    destruct (fetch_effects _ _ _ _ _ _ _ _ _ F) as (_ & _ & Hsup & _).
    unfold path_exists in Hp. apply orb_true_iff in Hp as [Hd | Hf]; [|done].
    unfold is_dir in Hd, Hnd. apply bool_decide_eq_true in Hd.
    apply bool_decide_eq_false in Hnd. apply Hsup in Hd.
    apply elem_of_union in Hd as [Hd | Hd%elem_of_list_to_set]; [done |].
    by destruct (below_not_created _ _ Hl1 Hl2 Hfn).
  - intros Hr1 Hr2. unfold p.
    rewrite (join_normal _ _ Hl1 Hl2 Hfn).
    rewrite (join_normal _ _ Hr1 Hr2 (has_sep_start _ Hsep)).
    by rewrite !append_assoc.
Qed.

Lemma bundle_paths_exist_witness :
  let run := ifabp_water.fetch_ifabp_water example_world (Some "/data") true
               partial_cache_state in
  ∃ b : Bunch,
    run.1 = Ok b ∧
    b !! "structure" = Some "/data/ifabp_water/ifabp_water_0.pdb" ∧
    path_exists run.2 "/data/ifabp_water/ifabp_water_0.pdb" = true ∧
    is_file run.2 "/data/ifabp_water/ifabp_water_0.pdb" = true.
Proof.
  intros run.
  set (b := <["DESCR" := "I-FABP in water dataset"]>
              (assign_all "/data/ifabp_water" ifabp_water.ARCHIVE ∅)).
  assert (F : fetch example_world ifabp_water.NAME ifabp_water.DESCRIPTION
                ifabp_water.ARCHIVE (Some "/data") true partial_cache_state
              = (Ok b, run.2)) by by_evaluation.
  destruct (bundle_paths_exist example_world ifabp_water.NAME
              ifabp_water.DESCRIPTION ifabp_water.ARCHIVE (Some "/data") true
              partial_cache_state b run.2 "structure"
              {| filename := "ifabp_water_0.pdb";
                 url := "https://ndownloader.figshare.com/files/12980636";
                 checksum :=
                   "8ccf5f75fd85385921c0cb77f00281a93b933fc1261c42fc9492f43983448a72" |}
              ltac:(vm_compute; reflexivity) ifabp_water_roles_ok F
              ltac:(apply list_elem_of_further, list_elem_of_here))
    as (Hb1 & _ & Hb2 & Hb3 & _).
  exists b. split; [by_evaluation |].
  split; [exact Hb1 |]. split; [exact Hb2 |].
  apply Hb3. vm_compute. reflexivity.
Defined.

(** C10.  The keys of a returned bundle do not depend on the cache
    state: they are the roles of the archive and [DESCR], nothing else.
    For [adk_equilibrium] these are topology, trajectory and DESCR; for
    [ifabp_water] topology, structure, trajectory and DESCR. *)
Theorem bundle_keys_fixed :
  (∀ (w : World) (NAME DESCRIPTION : string)
     (ARCHIVE : list (string * RemoteFileMetadata))
     (data_home : option string) (dim : bool) (st : State) (b : Bunch) st',
     fetch w NAME DESCRIPTION ARCHIVE data_home dim st = (Ok b, st') →
     dom b = list_to_set ARCHIVE.*1 ∪ {["DESCR"]}) ∧
  (∀ w data_home dim st (b : Bunch) st',
     adk_equilibrium.fetch_adk_equilibrium w data_home dim st = (Ok b, st') →
     dom b = {["topology"; "trajectory"; "DESCR"]}) ∧
  (∀ w data_home dim st (b : Bunch) st',
     ifabp_water.fetch_ifabp_water w data_home dim st = (Ok b, st') →
     dom b = {["topology"; "structure"; "trajectory"; "DESCR"]}).
Proof.
  assert (G : ∀ w NAME DESCRIPTION ARCHIVE data_home dim st (b : Bunch) st',
            fetch w NAME DESCRIPTION ARCHIVE data_home dim st = (Ok b, st') →
            dom b = list_to_set ARCHIVE.*1 ∪ {["DESCR"]}).
  { intros w NAME DESCRIPTION ARCHIVE data_home dim st b st' F.
    destruct (fetch_success _ _ _ _ _ _ _ _ _ F) as (text & _ & -> & _).
    rewrite dom_insert_L, dom_assign_all, dom_empty_L. set_solver. }
  split; [exact G |]. split.
  - intros w data_home dim st b st' F. rewrite (G _ _ _ _ _ _ _ _ _ F).
    simpl. set_solver.
  - intros w data_home dim st b st' F. rewrite (G _ _ _ _ _ _ _ _ _ F).
    simpl. set_solver.
Qed.

Lemma bundle_keys_fixed_witness :
  let run := adk_equilibrium.fetch_adk_equilibrium example_world None true
               mutated_cache_state in
  ∃ b : Bunch,
    run.1 = Ok b ∧ dom b = {["topology"; "trajectory"; "DESCR"]}.
Proof.
  intros run.
  set (b := <["DESCR" := "AdK equilibrium dataset"]>
              (assign_all "/home/user/MDAnalysis_data/adk_equilibrium"
                          adk_equilibrium.ARCHIVE ∅)).
  assert (F : adk_equilibrium.fetch_adk_equilibrium example_world None true
                mutated_cache_state = (Ok b, run.2)) by by_evaluation.
  exists b. split; [by_evaluation |].
  exact (proj1 (proj2 bundle_keys_fixed) _ _ _ _ _ _ F).
Defined.

(** C8.  The description is attached last: a call opens its description
    file at most once, as its final effect, and only when every file of
    the archive is in place; the [DESCR] field of a returned bundle is
    the text stored at [<module_path>/descr/<DESCRIPTION>], where
    [DESCRIPTION] is the dataset name followed by [.rst] in both
    modules. *)
Theorem description_attached_last
    (w : World) (NAME DESCRIPTION : string)
    (ARCHIVE : list (string * RemoteFileMetadata))
    (data_home : option string) (dim : bool) (st : State) r st' :
  let loc := data_location_of w NAME data_home in
  let descr := join (join (module_path w) "descr") DESCRIPTION in
  fetch w NAME DESCRIPTION ARCHIVE data_home dim st = (r, st') →
  (∀ b : Bunch, r = Ok b →
     ∃ text, b !! "DESCR" = Some text ∧ files st' !! descr = Some text) ∧
  (∀ new q, trace st' = new ++ trace st → EvOpen q ∈ new →
     q = descr ∧
     (∃ new', new = EvOpen descr :: new' ∧
              Forall (λ e, is_open e = false) new') ∧
     Forall (λ item, path_exists st' (join loc (filename item.2)) = true)
            ARCHIVE) ∧
  adk_equilibrium.DESCRIPTION = adk_equilibrium.NAME +:+ ".rst" ∧
  ifabp_water.DESCRIPTION = ifabp_water.NAME +:+ ".rst".
Proof.
  intros loc descr F. split; [|split; [|done]].
  - intros b ->.
    destruct (fetch_success _ _ _ _ _ _ _ _ _ F) as (text & Hd & -> & _).
    exists text. split; [apply lookup_insert_eq | exact Hd].
  - intros new q Ht Hin.
    destruct (fetch_effects _ _ _ _ _ _ _ _ _ F)
      as (_ & _ & _ & _ & opens & new0 & Ht0 & Hall & Hopens).
    rewrite Ht0, app_assoc in Ht. apply app_inv_tail in Ht. subst new.
    assert (Hno : Forall (λ e, is_open e = false) new0).
    { eapply Forall_impl; [exact Hall |]. by intros []. }
    destruct Hopens as [-> | [-> Hres]].
    + simpl in Hin. rewrite Forall_forall in Hno.
      by specialize (Hno _ Hin).
    + apply elem_of_app in Hin as [Hin%list_elem_of_singleton | Hin].
      * injection Hin as ->. split; [done |]. split; [|exact Hres].
        by exists new0.
      * rewrite Forall_forall in Hno. by specialize (Hno _ Hin).
Qed.

Lemma description_attached_last_witness :
  let run := adk_equilibrium.fetch_adk_equilibrium example_world None true
               fresh_state in
  ∃ (b : Bunch) text,
    run.1 = Ok b ∧
    b !! "DESCR" = Some text ∧
    files run.2
      !! "/opt/site-packages/MDAnalysisData/descr/adk_equilibrium.rst"
    = Some text ∧
    head (trace run.2)
    = Some (EvOpen
              "/opt/site-packages/MDAnalysisData/descr/adk_equilibrium.rst").
Proof.
  intros run.
  set (b := <["DESCR" := "AdK equilibrium dataset"]>
              (assign_all "/home/user/MDAnalysis_data/adk_equilibrium"
                          adk_equilibrium.ARCHIVE ∅)).
  assert (F : fetch example_world adk_equilibrium.NAME
                adk_equilibrium.DESCRIPTION adk_equilibrium.ARCHIVE None true
                fresh_state = (Ok b, run.2)) by by_evaluation.
  destruct (description_attached_last example_world adk_equilibrium.NAME
              adk_equilibrium.DESCRIPTION adk_equilibrium.ARCHIVE None true
              fresh_state (Ok b) run.2 F) as (Hd & _).
  destruct (Hd b eq_refl) as (text & Hb & Hfile).
  exists b, text. split; [by_evaluation |].
  split; [exact Hb |]. split; [exact Hfile | vm_compute; reflexivity].
Defined.

(** C7.  Creating the dataset directory is idempotent and minimal.  If
    [<data_home>/<NAME>] exists, the directory step raises nothing: the
    call is exactly the loop over the archive followed by the reading of
    the description, run from the initial state; it creates no directory
    and never ends in an error about the dataset directory or one of its
    ancestors.  If the directory does not exist and nothing blocks its
    creation, the call creates it together with its missing ancestors,
    the data home among them, and no other directory: in particular the
    only entry [<data_home>/x] it can create is the dataset directory
    itself. *)
Theorem dataset_directory_created
    (w : World) (NAME DESCRIPTION : string)
    (ARCHIVE : list (string * RemoteFileMetadata))
    (data_home : option string) (dim : bool) (st : State) r st' :
  let root := get_data_home w data_home in
  let loc := join root NAME in
  let descr := description_path w DESCRIPTION in
  fetch w NAME DESCRIPTION ARCHIVE data_home dim st = (r, st') →
  (path_exists st loc = true →
   dir_ready w loc st = true ∧ dirs st' = dirs st ∧
   (r, st') =
     match for_items w loc dim ARCHIVE ∅ st with
     | (Err e, s2) => (Err e, s2)
     | (Ok recs, s2) =>
         match open_read descr s2 with
         | (Ok text, s3) => (Ok (<["DESCR" := text]> recs), s3)
         | (Err e, s3) => (Err e, s3)
         end
     end ∧
   (well_formed NAME ARCHIVE = true →
    ∀ q, q ∈ ancestors loc ++ [loc] → r ≠ Err (FilesystemError q))) ∧
  (path_exists st loc = false → dir_ready w loc st = true →
   dirs st' = dirs st ∪ list_to_set (ancestors loc ++ [loc]) ∧
   loc ∈ dirs st' ∧
   (is_empty NAME = false → has_sep NAME = false →
    is_empty root = false → endswith_sep root = false → root ∈ dirs st')) ∧
  (has_sep NAME = false →
   ∀ x, root +:+ "/" +:+ x ∈ dirs st' →
        root +:+ "/" +:+ x ∈ dirs st ∨ x = NAME).
Proof.
  intros root loc descr F.
  destruct (fetch_inv _ _ _ _ _ _ _ _ _ F) as (r1 & s1 & E1 & H1).
  change (data_location_of w NAME data_home) with loc in E1, H1.
  destruct (ensure_location_spec _ _ _ _ _ E1)
    as (_ & _ & _ & _ & _ & Hyes & Hno).
  destruct (fetch_effects _ _ _ _ _ _ _ _ _ F) as (_ & Hsub & Hsup & _).
  change (data_location_of w NAME data_home) with loc in Hsup.
  assert (Hkeep : ∀ r2 s2, for_items w loc dim ARCHIVE ∅ s1 = (r2, s2) →
                           dirs s2 = dirs s1).
  { intros r2 s2 E2. by destruct (for_items_spec _ _ _ _ _ _ _ _ E2) as [[? _ _ _] _]. }
  assert (Hdirs : r1 = Ok tt → dirs st' = dirs s1).
  { intros ->. destruct H1 as (r2 & s2 & E2 & H2).
    rewrite <- (Hkeep _ _ E2). destruct r2; [by destruct H2 | by destruct H2 as [_ ->]]. }
  split; [|split].
  - intros Hex. split; [by apply dir_ready_present |].
    destruct (Hyes Hex) as [-> ->]. split; [by rewrite Hdirs |].
    assert (Hrest : (r, st') =
              match for_items w loc dim ARCHIVE ∅ st with
              | (Err e, s2) => (Err e, s2)
              | (Ok recs, s2) =>
                  match open_read descr s2 with
                  | (Ok text, s3) => (Ok (<["DESCR" := text]> recs), s3)
                  | (Err e, s3) => (Err e, s3)
                  end
              end).
    { rewrite <- F, fetch_unfold.
      change (data_location_of w NAME data_home) with loc.
      by rewrite (ensure_location_present w _ _ Hex). }
    split; [exact Hrest |].
    intros Hwf q Hq ->.
    destruct (well_formed_inv _ _ Hwf) as (Hne & Hsep & Hrel).
    destruct (join_name_normal root NAME Hne Hsep) as [Hl1 Hl2].
    destruct (for_items w loc dim ARCHIVE ∅ st) as [[recs|e2] s2] eqn:E2.
    + destruct (open_read descr s2) as [r3 s3] eqn:E3.
      destruct (open_read_spec _ _ _ _ E3) as (_ & _ & _ & _ & ->).
      by destruct (files s2 !! descr).
    + injection Hrest as <- _.
      destruct (for_items_spec _ _ _ _ _ _ _ _ E2) as [_ (item & Hin & Herr)].
      unfold item_error in Herr. destruct dim; [|done].
      destruct Herr as [[= ->] | [? | (actual & ? & _)]]; [|done | done].
      by destruct (below_not_created _ _ Hl1 Hl2 (Hrel _ Hin)).
  - intros Hex Hready. unfold dir_ready in Hready. rewrite E1 in Hready.
    destruct r1 as [[]|e]; [|done].
    assert (Heq : dirs st' = dirs st ∪ list_to_set (ancestors loc ++ [loc])).
    { rewrite Hdirs by done. by apply Hno. }
    split; [exact Heq |]. rewrite Heq. split.
    + rewrite elem_of_union, elem_of_list_to_set, elem_of_app,
        list_elem_of_singleton. auto.
    + intros Hne Hsep Hr1 Hr2.
      rewrite elem_of_union, elem_of_list_to_set, elem_of_app. right. left.
      apply elem_of_ancestors. split; [by destruct root |].
      exists NAME. unfold loc.
      by rewrite (join_normal _ _ Hr1 Hr2 (has_sep_start _ Hsep)).
  - intros Hsep x Hx. apply Hsup in Hx.
    apply elem_of_union in Hx as [Hx | Hx%elem_of_list_to_set]; [by left |].
    right.
    assert (Hloc : loc = root +:+ NAME ∨ loc = root +:+ "/" +:+ NAME)
      by apply join_relative, has_sep_start, Hsep.
    apply elem_of_app in Hx as [Hx | Hx%list_elem_of_singleton].
    + apply elem_of_ancestors in Hx as [_ [t Ht]].
      rewrite !append_assoc in Ht.
      destruct Hloc as [Hloc | Hloc]; rewrite Hloc in Ht;
        apply append_inv_head in Ht.
      * rewrite Ht in Hsep.
        by rewrite has_sep_lead in Hsep.
      * apply (append_inv_head "/") in Ht. rewrite Ht in Hsep.
        by rewrite has_sep_middle in Hsep.
    + destruct Hloc as [Hloc | Hloc]; rewrite Hloc in Hx;
        apply append_inv_head in Hx.
      * rewrite <- Hx in Hsep.
        by rewrite has_sep_lead in Hsep.
      * by apply (append_inv_head "/") in Hx.
Qed.

Lemma dataset_directory_created_witness :
  let run := adk_equilibrium.fetch_adk_equilibrium example_world None true
               fresh_state in
  let again := adk_equilibrium.fetch_adk_equilibrium example_world None true
                 mutated_cache_state in
  "/home/user/MDAnalysis_data/adk_equilibrium" ∈ dirs run.2 ∧
  "/home/user/MDAnalysis_data" ∈ dirs run.2 ∧
  (∀ x, "/home/user/MDAnalysis_data" +:+ "/" +:+ x ∈ dirs run.2 →
        "/home/user/MDAnalysis_data" +:+ "/" +:+ x ∈ dirs fresh_state ∨
        x = "adk_equilibrium") ∧
  dirs again.2 = dirs mutated_cache_state ∧
  again.1
  ≠ Err (FilesystemError "/home/user/MDAnalysis_data/adk_equilibrium").
Proof.
  intros run again.
  assert (F : fetch example_world adk_equilibrium.NAME
                adk_equilibrium.DESCRIPTION adk_equilibrium.ARCHIVE None true
                fresh_state = (run.1, run.2)) by by_evaluation.
  assert (F' : fetch example_world adk_equilibrium.NAME
                 adk_equilibrium.DESCRIPTION adk_equilibrium.ARCHIVE None true
                 mutated_cache_state = (again.1, again.2)) by by_evaluation.
  destruct (dataset_directory_created example_world adk_equilibrium.NAME
              adk_equilibrium.DESCRIPTION adk_equilibrium.ARCHIVE None true
              fresh_state run.1 run.2 F) as (_ & Hnew & Hsib).
  destruct (dataset_directory_created example_world adk_equilibrium.NAME
              adk_equilibrium.DESCRIPTION adk_equilibrium.ARCHIVE None true
              mutated_cache_state again.1 again.2 F') as (Hthere & _ & _).
  destruct Hnew as (_ & Hloc & Hroot).
  - vm_compute. reflexivity.
  - vm_compute. reflexivity.
  - destruct Hthere as (_ & Hdirs & _ & Hnoerr).
    + vm_compute. reflexivity.
    + split; [exact Hloc |]. split; [apply Hroot; vm_compute; reflexivity |].
      split; [apply Hsib; vm_compute; reflexivity |].
      split; [exact Hdirs |].
      apply (Hnoerr adk_equilibrium_well_formed).
      apply elem_of_app. right. apply list_elem_of_here.
Defined.

(** C4.  Fetch is all-or-nothing.  A bundle is returned only when
    nothing failed: the dataset directory is there, every file of the
    archive is in place, the description was read, and the bundle has
    all its keys.  Whenever a stage raises (the directory cannot be
    created, a file is missing with downloads disabled, the downloader
    fails, the description cannot be read) the call ends in exactly that
    exception, in the state the failing stage left, and no bundle is
    returned. *)
Theorem fetch_all_or_nothing
    (w : World) (NAME DESCRIPTION : string)
    (ARCHIVE : list (string * RemoteFileMetadata))
    (data_home : option string) (dim : bool) (st : State) r st' :
  let loc := data_location_of w NAME data_home in
  let descr := description_path w DESCRIPTION in
  fetch w NAME DESCRIPTION ARCHIVE data_home dim st = (r, st') →
  (∀ b : Bunch, r = Ok b →
     dir_ready w loc st = true ∧
     Forall (λ item, path_exists st' (join loc (filename item.2)) = true)
            ARCHIVE ∧
     is_Some (files st' !! descr) ∧
     dom b = list_to_set ARCHIVE.*1 ∪ {["DESCR"]}) ∧
  (∀ e s1, ensure_location w loc st = (Err e, s1) → r = Err e ∧ st' = s1) ∧
  (∀ s1 pre item post recs s2,
     ensure_location w loc st = (Ok tt, s1) →
     ARCHIVE = pre ++ item :: post →
     for_items w loc dim pre ∅ s1 = (Ok recs, s2) →
     path_exists s2 (join loc (filename item.2)) = false →
     (dim = false →
      r = Err (IOError (not_found_message item.1
                          (join loc (filename item.2)))) ∧
      st' = s2) ∧
     (dim = true → ∀ e s3,
        _fetch_remote w item.2 loc false
          (emit (EvLogInfo (downloading_message item.1 (url item.2)
                              (join loc (filename item.2)))) s2).2
        = (Err e, s3) →
        r = Err e ∧ st' = s3)) ∧
  (∀ s1 recs s2,
     ensure_location w loc st = (Ok tt, s1) →
     for_items w loc dim ARCHIVE ∅ s1 = (Ok recs, s2) →
     files s2 !! descr = None →
     r = Err (FileNotFoundError descr)).
Proof.
  intros loc descr F. split; [|split; [|split]].
  - intros b ->.
    destruct (fetch_success _ _ _ _ _ _ _ _ _ F) as (text & Hd & -> & Hall & _).
    split; [by eapply fetch_ok_dir_ready |]. split; [exact Hall |].
    split; [by exists text |].
    rewrite dom_insert_L, dom_assign_all, dom_empty_L. set_solver.
  - intros e s1 E1. rewrite fetch_unfold in F. fold loc in F.
    rewrite E1 in F. by injection F as <- <-.
  - intros s1 pre item post recs s2 E1 -> E2 Hp.
    rewrite fetch_unfold in F. fold loc in F. rewrite E1 in F.
    rewrite (for_items_app w loc dim pre (item :: post) _ _ _ _ E2) in F.
    rewrite for_items_cons in F. split.
    + intros ->. rewrite item_step_offline in F by done.
      by injection F as <- <-.
    + intros -> e s3 E3. rewrite item_step_online, E3 in F by done.
      by injection F as <- <-.
  - intros s1 recs s2 E1 E2 Hd.
    rewrite fetch_unfold in F. fold loc in F. rewrite E1, E2 in F.
    destruct (open_read (description_path w DESCRIPTION) s2) as [r3 s3] eqn:E3.
    destruct (open_read_spec _ _ _ _ E3) as (_ & _ & _ & _ & ->).
    fold descr in F. rewrite Hd in F. by injection F as <- _.
Qed.

Lemma fetch_all_or_nothing_witness :
  let run := adk_equilibrium.fetch_adk_equilibrium tampering_world None true
               fresh_state in
  run.1 = Err (IntegrityError
                 "/home/user/MDAnalysis_data/adk_equilibrium/adk4AKE.psf"
                 "1aa947d58fb41b6805dc1e7be4dbe65c6a8f4690f0bd7fc2ae03e7bd437085f4"
                 "").
Proof.
  intros run.
  set (loc := "/home/user/MDAnalysis_data/adk_equilibrium").
  set (item := ("topology",
                {| filename := "adk4AKE.psf";
                   url := "https://ndownloader.figshare.com/files/8672230";
                   checksum :=
                     "1aa947d58fb41b6805dc1e7be4dbe65c6a8f4690f0bd7fc2ae03e7bd437085f4" |})).
  set (s1 := (ensure_location tampering_world loc fresh_state).2).
  set (s2 := (emit (EvLogInfo (downloading_message item.1 (url item.2)
                                 (join loc (filename item.2)))) s1).2).
  assert (F : fetch tampering_world adk_equilibrium.NAME
                adk_equilibrium.DESCRIPTION adk_equilibrium.ARCHIVE None true
                fresh_state = (run.1, run.2)) by by_evaluation.
  destruct (fetch_all_or_nothing tampering_world adk_equilibrium.NAME
              adk_equilibrium.DESCRIPTION adk_equilibrium.ARCHIVE None true
              fresh_state run.1 run.2 F) as (_ & _ & Hstep & _).
  destruct (Hstep s1 [] item (tail adk_equilibrium.ARCHIVE) ∅ s1)
    as [_ Hdown].
  - by_evaluation.
  - reflexivity.
  - reflexivity.
  - vm_compute. reflexivity.
  - refine (proj1 (Hdown eq_refl _
                     (_fetch_remote tampering_world item.2 loc false s2).2 _)).
    by_evaluation.
Defined.

(** C6 (as the code has it).  Every exception a fetch call raises for a
    file of the archive is about the first file of the archive that is
    still unavailable when the call returns.  It identifies the expected
    local path of that file and, inside the path, the dataset name.  The
    [IOError] raised with downloads disabled is the message of the source
    for the role and the local path of that file, so it identifies the
    role too.  An exception of the downloader is passed on as it is and
    consists of the local path of that file and its url or its expected
    and the differing actual checksum. *)
Theorem fetch_errors_identify_file
    (w : World) (NAME DESCRIPTION : string)
    (ARCHIVE : list (string * RemoteFileMetadata))
    (data_home : option string) (dim : bool) (st : State) e st' :
  let loc := data_location_of w NAME data_home in
  well_formed NAME ARCHIVE = true →
  dir_ready w loc st = true →
  fetch w NAME DESCRIPTION ARCHIVE data_home dim st = (Err e, st') →
  e ≠ FileNotFoundError (description_path w DESCRIPTION) →
  ∃ role meta,
    let p := join loc (filename meta) in
    first_missing st' loc ARCHIVE = Some (role, meta) ∧
    (role, meta) ∈ ARCHIVE ∧
    path_exists st' p = false ∧
    identifies e p = true ∧
    identifies e NAME = true ∧
    match e with
    | IOError msg =>
        dim = false ∧ msg = not_found_message role p ∧
        identifies e role = true
    | IntegrityError q expected actual =>
        dim = true ∧ q = p ∧ expected = checksum meta ∧ actual ≠ expected
    | TransientFetchError source q =>
        dim = true ∧ source = url meta ∧ q = p
    | FilesystemError q => dim = true ∧ q = p
    | FileNotFoundError _ => False
    end.
Proof.
  intros loc Hwf Hready F Hne.
  destruct (well_formed_inv _ _ Hwf) as (_ & _ & Hrel).
  destruct (fetch_inv _ _ _ _ _ _ _ _ _ F) as (r1 & s1 & E1 & H1).
  fold loc in E1, H1. unfold dir_ready in Hready. rewrite E1 in Hready.
  destruct r1 as [[]|e1]; [|done].
  destruct H1 as (r2 & s2 & E2 & H2).
  destruct r2 as [recs|e2].
  { destruct H2 as (_ & _ & _ & _ & Hr).
    destruct (files s2 !! description_path w DESCRIPTION); [done |].
    by injection Hr as ->. }
  destruct H2 as [[= <-] ->].
  destruct (for_items_failure _ _ _ _ _ _ _ _ E2) as ([role meta] & FM & Herr).
  destruct (first_missing_Some _ _ _ _ FM) as [Hin Hmiss].
  exists role, meta. cbv zeta. split; [exact FM |]. split; [exact Hin |].
  split; [exact Hmiss |].
  split; [eapply item_error_identifies; [exact Herr | apply contains_refl] |].
  split.
  - eapply item_error_identifies; [exact Herr |]. simpl.
    eapply contains_trans; [apply join_contains_r |].
    apply join_contains_l. exact (Hrel _ Hin).
  - unfold item_error in Herr. simpl in Herr. destruct dim.
    + destruct Herr as [-> | [-> | (actual & -> & Hact)]]; done.
    + subst e. split; [done |]. split; [done |].
      eapply identifies_first; [done | apply not_found_message_role].
Qed.

Lemma fetch_errors_identify_file_witness :
  let e := IOError (not_found_message "structure"
             "/home/user/MDAnalysis_data/ifabp_water/ifabp_water_0.pdb") in
  ∃ role meta,
    first_missing partial_cache_state "/home/user/MDAnalysis_data/ifabp_water"
      ifabp_water.ARCHIVE = Some (role, meta) ∧
    role = "structure" ∧
    identifies e (join "/home/user/MDAnalysis_data/ifabp_water"
                       (filename meta)) = true ∧
    identifies e "ifabp_water" = true ∧
    identifies e role = true.
Proof.
  intros e.
  destruct (fetch_errors_identify_file example_world ifabp_water.NAME
              ifabp_water.DESCRIPTION ifabp_water.ARCHIVE None false
              partial_cache_state e partial_cache_state)
    as (role & meta & FM & _ & _ & Hp & Hn & _ & Hmsg & Hr).
  - vm_compute. reflexivity.
  - vm_compute. reflexivity.
  - by_evaluation.
  - discriminate.
  - exists role, meta. split; [exact FM |]. split.
    + assert (FM' : first_missing partial_cache_state
                      (data_location_of example_world ifabp_water.NAME None)
                      ifabp_water.ARCHIVE
                    = Some ("structure",
                            {| filename := "ifabp_water_0.pdb";
                               url := "https://ndownloader.figshare.com/files/12980636";
                               checksum :=
                                 "8ccf5f75fd85385921c0cb77f00281a93b933fc1261c42fc9492f43983448a72" |}))
        by (vm_compute; reflexivity).
      rewrite FM' in FM. by injection FM as <- _.
    + split; [exact Hp |]. split; [exact Hn | exact Hr].
Defined.

(** C6, counterexample.  The remote host serves bytes with the wrong
    digest for the topology file of [adk_equilibrium].  The call raises
    the integrity failure of the downloader, which names the local path
    and both checksums and nowhere the role [topology]. *)
Lemma download_error_omits_role :
  let run := adk_equilibrium.fetch_adk_equilibrium tampering_world None true
               fresh_state in
  let e := IntegrityError
             "/home/user/MDAnalysis_data/adk_equilibrium/adk4AKE.psf"
             "1aa947d58fb41b6805dc1e7be4dbe65c6a8f4690f0bd7fc2ae03e7bd437085f4"
             "" in
  run.1 = Err e ∧ identifies e "topology" = false.
Proof.
  split.
  - vm_compute. reflexivity.
  - vm_compute. reflexivity.
Defined.

(** * Further properties of the fetch functions *)

(** ** A complete cache *)

Section CompleteCache.
Context (w : World) (NAME DESCRIPTION : string).
Context (ARCHIVE : list (string * RemoteFileMetadata)).
Context (data_home : option string).

Let loc := data_location_of w NAME data_home.
Let descr := description_path w DESCRIPTION.

Lemma fetch_cached (dim : bool) (st : State) (text : string) :
  path_exists st loc = true →
  Forall (λ item, path_exists st (join loc (filename item.2)) = true) ARCHIVE →
  files st !! descr = Some text →
  fetch w NAME DESCRIPTION ARCHIVE data_home dim st =
  (Ok (<["DESCR" := text]> (assign_all loc ARCHIVE ∅)),
   {| dirs := dirs st; files := files st; clock := clock st;
      trace := EvOpen descr :: trace st |}).
Proof.
  intros Hloc Hall Hd.
  rewrite fetch_unfold. fold loc. rewrite (ensure_location_present w _ _ Hloc).
  rewrite for_items_all_present by by apply first_missing_None.
  fold descr. by rewrite (open_read_present _ _ _ Hd).
Qed.

(** What a successful call leaves behind is a complete cache, and it
    stays one in every state that has at least the same files and
    directories. *)
Lemma fetch_success_later (dim dim' : bool) (st : State) b st1 (st2 : State) :
  fetch w NAME DESCRIPTION ARCHIVE data_home dim st = (Ok b, st1) →
  files st1 ⊆ files st2 → dirs st1 ⊆ dirs st2 →
  fetch w NAME DESCRIPTION ARCHIVE data_home dim' st2 =
  (Ok b, {| dirs := dirs st2; files := files st2; clock := clock st2;
            trace := EvOpen descr :: trace st2 |}).
Proof.
  intros F Hf Hd.
  destruct (fetch_success _ _ _ _ _ _ _ _ _ F)
    as (text & Hdescr & -> & Hall & Hloc).
  apply fetch_cached.
  - by apply (path_exists_mono st1 st2).
  - eapply Forall_impl; [exact Hall |]. intros item. simpl.
    by apply (path_exists_mono st1 st2).
  - by eapply lookup_weaken.
Qed.
End CompleteCache.

Lemma mkdir_chain_error (w : World) (ps : list string) (st : State) e st' :
  mkdir_chain w ps st = (Err e, st') → ∃ q, q ∈ ps ∧ e = FilesystemError q.
Proof.
  revert st. induction ps as [|p ps IH]; intros st; simpl; [done |].
  destruct (is_dir st p).
  - intros H. destruct (IH _ H) as (q & Hq & ->).
    exists q. split; [by apply list_elem_of_further | done].
  - unfold bind, mkdir.
    destruct (path_exists st p || negb (permits w p)).
    + intros [= <- <-]. exists p. split; [apply list_elem_of_here | done].
    + intros H. destruct (IH _ H) as (q & Hq & ->).
      exists q. split; [by apply list_elem_of_further | done].
Qed.

Lemma ensure_location_error (w : World) (loc : string) (st : State) e st' :
  ensure_location w loc st = (Err e, st') →
  ∃ q, q ∈ ancestors loc ++ [loc] ∧ e = FilesystemError q.
Proof.
  unfold ensure_location, bind, exists_, ret, makedirs.
  destruct (path_exists st loc) eqn:E; simpl; [done |].
  rewrite E. apply mkdir_chain_error.
Qed.

(** X1.  With the dataset directory, every file of the archive and the
    description in place, a call succeeds whatever [download_if_missing]
    is and whatever the world is like: both modes return the same bundle
    and end in the same state, which differs from the initial one only
    by the opening of the description. *)
Theorem fetch_cache_hit
    (w : World) (NAME DESCRIPTION : string)
    (ARCHIVE : list (string * RemoteFileMetadata))
    (data_home : option string) (st : State) (text : string) :
  let loc := data_location_of w NAME data_home in
  let descr := description_path w DESCRIPTION in
  path_exists st loc = true →
  Forall (λ item, path_exists st (join loc (filename item.2)) = true) ARCHIVE →
  files st !! descr = Some text →
  ∃ (b : Bunch) st',
    (∀ dim, fetch w NAME DESCRIPTION ARCHIVE data_home dim st = (Ok b, st')) ∧
    b !! "DESCR" = Some text ∧
    (∀ role meta, (role, meta) ∈ ARCHIVE → role ∈ dom b) ∧
    trace st' = EvOpen descr :: trace st ∧
    files st' = files st ∧ dirs st' = dirs st ∧ clock st' = clock st.
Proof.
  intros loc descr Hloc Hall Hd. eexists _, _. split.
  - intros dim. by apply fetch_cached.
  - split; [apply lookup_insert_eq |]. split; [|done].
    intros role meta Hin. rewrite dom_insert_L, dom_assign_all.
    apply elem_of_union_r, elem_of_union_r, elem_of_list_to_set.
    apply list_elem_of_fmap. by exists (role, meta).
Qed.

Lemma fetch_cache_hit_witness :
  ∃ (b : Bunch) st',
    (∀ dim,
       adk_equilibrium.fetch_adk_equilibrium example_world None dim
         mutated_cache_state = (Ok b, st')) ∧
    b !! "DESCR" = Some "AdK equilibrium dataset" ∧
    trace st'
    = [EvOpen "/opt/site-packages/MDAnalysisData/descr/adk_equilibrium.rst"].
Proof.
  destruct (fetch_cache_hit example_world adk_equilibrium.NAME
              adk_equilibrium.DESCRIPTION adk_equilibrium.ARCHIVE None
              mutated_cache_state "AdK equilibrium dataset")
    as (b & st' & F & Hb & _ & Ht & _).
  - vm_compute. reflexivity.
  - repeat constructor; vm_compute; reflexivity.
  - vm_compute. reflexivity.
  - exists b, st'. split; [exact F |]. split; [exact Hb | exact Ht].
Defined.

(** X2.  A cache filled by a successful call survives later calls: a
    further call for the same dataset, in either mode, returns the same
    bundle without calling the downloader, directly after the first call
    and also after a call for any other dataset, with any arguments and
    any outcome, in between. *)
Theorem cache_survives_later_fetches
    (w : World) (NAME DESCRIPTION : string)
    (ARCHIVE : list (string * RemoteFileMetadata))
    (data_home : option string) (dim : bool) (st : State) b st1 :
  let descr := description_path w DESCRIPTION in
  fetch w NAME DESCRIPTION ARCHIVE data_home dim st = (Ok b, st1) →
  (∀ dim', ∃ st2,
     fetch w NAME DESCRIPTION ARCHIVE data_home dim' st1 = (Ok b, st2) ∧
     trace st2 = EvOpen descr :: trace st1) ∧
  (∀ NAME' DESCRIPTION' ARCHIVE' data_home' dim2 r st2 dim',
     fetch w NAME' DESCRIPTION' ARCHIVE' data_home' dim2 st1 = (r, st2) →
     ∃ st3,
       fetch w NAME DESCRIPTION ARCHIVE data_home dim' st2 = (Ok b, st3) ∧
       trace st3 = EvOpen descr :: trace st2).
Proof.
  intros descr F. split.
  - intros dim'. eexists. split; [by eapply fetch_success_later |]. done.
  - intros NAME' DESCRIPTION' ARCHIVE' data_home' dim2 r st2 dim' F2.
    destruct (fetch_effects _ _ _ _ _ _ _ _ _ F2) as (Hf & Hd & _).
    eexists. split; [by eapply fetch_success_later |]. done.
Qed.

Lemma cache_survives_later_fetches_witness :
  let first := adk_equilibrium.fetch_adk_equilibrium example_world None true
                 fresh_state in
  let second := ifabp_water.fetch_ifabp_water example_world None false
                  first.2 in
  ∃ (b : Bunch) st3,
    first.1 = Ok b ∧
    second.1 = Err (IOError (not_found_message "topology"
                 "/home/user/MDAnalysis_data/ifabp_water/ifabp_water.psf")) ∧
    adk_equilibrium.fetch_adk_equilibrium example_world None false second.2
      = (Ok b, st3) ∧
    trace st3
    = EvOpen "/opt/site-packages/MDAnalysisData/descr/adk_equilibrium.rst"
        :: trace second.2.
Proof.
  intros first second.
  set (b := <["DESCR" := "AdK equilibrium dataset"]>
              (assign_all "/home/user/MDAnalysis_data/adk_equilibrium"
                          adk_equilibrium.ARCHIVE ∅)).
  assert (F : fetch example_world adk_equilibrium.NAME
                adk_equilibrium.DESCRIPTION adk_equilibrium.ARCHIVE None true
                fresh_state = (Ok b, first.2)) by by_evaluation.
  assert (F2 : fetch example_world ifabp_water.NAME ifabp_water.DESCRIPTION
                 ifabp_water.ARCHIVE None false first.2
               = (second.1, second.2)) by by_evaluation.
  destruct (cache_survives_later_fetches example_world adk_equilibrium.NAME
              adk_equilibrium.DESCRIPTION adk_equilibrium.ARCHIVE None true
              fresh_state b first.2 F) as [_ Hother].
  destruct (Hother _ _ _ _ _ _ _ false F2) as (st3 & F3 & Ht3).
  exists b, st3. split; [by_evaluation |].
  split; [vm_compute; reflexivity |]. split; [exact F3 | exact Ht3].
Defined.

(** ** What a call touches *)

Lemma sep_free_prefix_inj (a b x y : string) :
  has_sep a = false → has_sep b = false →
  a +:+ String sep x = b +:+ String sep y → a = b.
Proof.
  revert b. induction a as [|c a IH]; intros [|d b]; app_simpl.
  - done.
  - intros _ Hb [= <- _]. by rewrite Ascii.eqb_refl in Hb.
  - intros Ha _ [= -> _]. by rewrite Ascii.eqb_refl in Ha.
  - intros [_ Ha]%orb_false_iff [_ Hb]%orb_false_iff [= -> Heq].
    f_equal. by apply IH.
Qed.

(** The local paths of two datasets under one data home are different
    as soon as the dataset names are. *)
Lemma local_paths_disjoint (root N1 N2 f1 f2 : string) :
  is_empty N1 = false → has_sep N1 = false →
  is_empty N2 = false → has_sep N2 = false →
  startswith_sep f1 = false → startswith_sep f2 = false →
  join (join root N1) f1 = join (join root N2) f2 → N1 = N2.
Proof.
  intros Hn1 Hs1 Hn2 Hs2 Hf1 Hf2.
  destruct (join_name_normal root N1 Hn1 Hs1) as [Ha1 Hb1].
  destruct (join_name_normal root N2 Hn2 Hs2) as [Ha2 Hb2].
  rewrite (join_normal _ _ Ha1 Hb1 Hf1), (join_normal _ _ Ha2 Hb2 Hf2).
  unfold join. rewrite (has_sep_start _ Hs1), (has_sep_start _ Hs2).
  destruct (is_empty root || endswith_sep root); rewrite !append_assoc;
    intros Heq; apply append_inv_head in Heq.
  - exact (sep_free_prefix_inj _ _ _ _ Hs1 Hs2 Heq).
  - apply (append_inv_head "/") in Heq.
    exact (sep_free_prefix_inj _ _ _ _ Hs1 Hs2 Heq).
Qed.

(** X3.  Whatever its outcome, a call never deletes or changes a file
    and never removes a directory; the only files it can add are at the
    local paths of its own archive, and only with downloads enabled. *)
Theorem fetch_touches_only_archive_files
    (w : World) (NAME DESCRIPTION : string)
    (ARCHIVE : list (string * RemoteFileMetadata))
    (data_home : option string) (dim : bool) (st : State) r st' :
  let loc := data_location_of w NAME data_home in
  fetch w NAME DESCRIPTION ARCHIVE data_home dim st = (r, st') →
  (∀ p c, files st !! p = Some c → files st' !! p = Some c) ∧
  (∀ p, files st !! p = None → is_Some (files st' !! p) →
     dim = true ∧
     ∃ role meta, (role, meta) ∈ ARCHIVE ∧ p = join loc (filename meta)) ∧
  dirs st ⊆ dirs st'.
Proof.
  intros loc F.
  destruct (fetch_effects _ _ _ _ _ _ _ _ _ F) as (Hf & Hd & _ & Hprov & _).
  split; [|split; [|done]].
  - intros p c Hc. by eapply lookup_weaken.
  - intros p Hnone [c Hc]. split.
    + destruct dim; [done |].
      destruct (fetch_offline_effects _ _ _ _ _ _ _ _ _ eq_refl F) as (Heq & _).
      rewrite Heq in Hc. congruence.
    + destruct (Hprov _ _ Hc) as [Hold | ([role meta] & Hin & -> & _)];
        [congruence |].
      by exists role, meta.
Qed.

Lemma fetch_touches_only_archive_files_witness :
  let run := ifabp_water.fetch_ifabp_water tampering_world None true
               partial_cache_state in
  files run.2 !! "/home/user/MDAnalysis_data/ifabp_water/ifabp_water.psf"
  = Some (served "https://ndownloader.figshare.com/files/12980639").
Proof.
  intros run.
  assert (F : fetch tampering_world ifabp_water.NAME ifabp_water.DESCRIPTION
                ifabp_water.ARCHIVE None true partial_cache_state
              = (run.1, run.2)) by by_evaluation.
  destruct (fetch_touches_only_archive_files tampering_world ifabp_water.NAME
              ifabp_water.DESCRIPTION ifabp_water.ARCHIVE None true
              partial_cache_state run.1 run.2 F) as (Hkeep & _).
  apply Hkeep. vm_compute. reflexivity.
Defined.

(** X4.  Datasets with different names do not interfere: under one data
    home, a call for one dataset, whatever its mode and outcome, leaves
    what is at every local path of the other dataset as it was. *)
Theorem datasets_do_not_interfere
    (w : World) (NAME1 NAME2 DESCRIPTION2 : string)
    (ARCHIVE1 ARCHIVE2 : list (string * RemoteFileMetadata))
    (data_home : option string) (dim : bool) (st : State) r st'
    (role : string) (meta : RemoteFileMetadata) :
  well_formed NAME1 ARCHIVE1 = true →
  well_formed NAME2 ARCHIVE2 = true →
  NAME1 ≠ NAME2 →
  fetch w NAME2 DESCRIPTION2 ARCHIVE2 data_home dim st = (r, st') →
  (role, meta) ∈ ARCHIVE1 →
  files st' !! join (data_location_of w NAME1 data_home) (filename meta)
  = files st !! join (data_location_of w NAME1 data_home) (filename meta).
Proof.
  intros Hwf1 Hwf2 Hne F Hin.
  destruct (well_formed_inv _ _ Hwf1) as (Hn1 & Hs1 & Hrel1).
  destruct (well_formed_inv _ _ Hwf2) as (Hn2 & Hs2 & Hrel2).
  destruct (fetch_effects _ _ _ _ _ _ _ _ _ F) as (Hf & _ & _ & Hprov & _).
  set (p := join (data_location_of w NAME1 data_home) (filename meta)).
  destruct (files st' !! p) as [c|] eqn:L'.
  - destruct (Hprov _ _ L') as [Hold | (item & Hitem & Hp & _)]; [done |].
    destruct Hne. unfold p, data_location_of in Hp.
    exact (local_paths_disjoint _ _ _ _ _ Hn1 Hs1 Hn2 Hs2
             (Hrel1 _ Hin) (Hrel2 _ Hitem) Hp).
  - destruct (files st !! p) as [c|] eqn:L; [|done].
    by rewrite (lookup_weaken _ _ _ _ L Hf) in L'.
Qed.

Lemma datasets_do_not_interfere_witness :
  let run := ifabp_water.fetch_ifabp_water example_world None true
               mutated_cache_state in
  files run.2 !! "/home/user/MDAnalysis_data/adk_equilibrium/adk4AKE.psf"
  = Some "overwritten".
Proof.
  intros run.
  assert (F : fetch example_world ifabp_water.NAME ifabp_water.DESCRIPTION
                ifabp_water.ARCHIVE None true mutated_cache_state
              = (run.1, run.2)) by by_evaluation.
  assert (Hold : files mutated_cache_state
                   !! "/home/user/MDAnalysis_data/adk_equilibrium/adk4AKE.psf"
                 = Some "overwritten") by (vm_compute; reflexivity).
  etrans; [|exact Hold].
  exact (datasets_do_not_interfere example_world adk_equilibrium.NAME
           ifabp_water.NAME ifabp_water.DESCRIPTION adk_equilibrium.ARCHIVE
           ifabp_water.ARCHIVE None true mutated_cache_state run.1 run.2
           "topology"
           {| filename := "adk4AKE.psf";
              url := "https://ndownloader.figshare.com/files/8672230";
              checksum :=
                "1aa947d58fb41b6805dc1e7be4dbe65c6a8f4690f0bd7fc2ae03e7bd437085f4" |}
           adk_equilibrium_well_formed ifabp_water_well_formed
           ltac:(discriminate) F (list_elem_of_here _ _)).
Defined.

(** ** Failures *)

(** X5.  Which exceptions a call can end in depends on its mode.  The
    [IOError] of the source occurs only with downloads disabled and then
    carries the message for an item of the archive; the failures of the
    downloader (network, integrity) occur only with downloads enabled; a
    file-not-found error is always about the description file. *)
Theorem error_kinds_by_mode
    (w : World) (NAME DESCRIPTION : string)
    (ARCHIVE : list (string * RemoteFileMetadata))
    (data_home : option string) (dim : bool) (st : State) e st' :
  let loc := data_location_of w NAME data_home in
  fetch w NAME DESCRIPTION ARCHIVE data_home dim st = (Err e, st') →
  match e with
  | IOError msg =>
      dim = false ∧
      ∃ item, item ∈ ARCHIVE ∧
              msg = not_found_message item.1 (join loc (filename item.2))
  | TransientFetchError _ _ | IntegrityError _ _ _ => dim = true
  | FilesystemError _ => True
  | FileNotFoundError q => q = description_path w DESCRIPTION
  end.
Proof.
  intros loc F.
  destruct (fetch_inv _ _ _ _ _ _ _ _ _ F) as (r1 & s1 & E1 & H1).
  fold loc in E1, H1. destruct r1 as [[]|e1].
  2:{ destruct H1 as [[= <-] _].
      by destruct (ensure_location_error _ _ _ _ _ E1) as (q & _ & ->). }
  destruct H1 as (r2 & s2 & E2 & H2).
  destruct (for_items_spec _ _ _ _ _ _ _ _ E2) as [_ Hr2].
  destruct r2 as [recs|e2].
  - destruct H2 as (_ & _ & _ & _ & Hr).
    destruct (files s2 !! description_path w DESCRIPTION); [done |].
    by injection Hr as ->.
  - destruct H2 as [[= <-] _]. destruct Hr2 as (item & Hin & Herr).
    unfold item_error in Herr. destruct dim.
    + by destruct Herr as [-> | [-> | (actual & -> & _)]].
    + subst e. split; [done |]. by exists item.
Qed.

Lemma error_kinds_by_mode_witness :
  ∃ item, item ∈ ifabp_water.ARCHIVE ∧
    not_found_message "structure"
      "/home/user/MDAnalysis_data/ifabp_water/ifabp_water_0.pdb"
    = not_found_message item.1
        (join "/home/user/MDAnalysis_data/ifabp_water" (filename item.2)).
Proof.
  assert (F : fetch example_world ifabp_water.NAME ifabp_water.DESCRIPTION
                ifabp_water.ARCHIVE None false partial_cache_state
              = (Err (IOError (not_found_message "structure"
                   "/home/user/MDAnalysis_data/ifabp_water/ifabp_water_0.pdb")),
                 partial_cache_state)) by by_evaluation.
  exact (proj2 (error_kinds_by_mode example_world ifabp_water.NAME
                  ifabp_water.DESCRIPTION ifabp_water.ARCHIVE None false
                  partial_cache_state _ _ F)).
Defined.

(** X6.  When the dataset directory neither exists nor can be created, a
    call fails, in either mode, with the error of the blocked directory
    (the dataset directory or one of its ancestors) before it looks at
    any file of the archive: nothing is logged, requested or opened, and
    the files are as before. *)
Theorem blocked_directory_fails_first
    (w : World) (NAME DESCRIPTION : string)
    (ARCHIVE : list (string * RemoteFileMetadata))
    (data_home : option string) (dim : bool) (st : State) :
  let loc := data_location_of w NAME data_home in
  dir_ready w loc st = false →
  ∃ q st',
    fetch w NAME DESCRIPTION ARCHIVE data_home dim st
      = (Err (FilesystemError q), st') ∧
    q ∈ ancestors loc ++ [loc] ∧
    trace st' = trace st ∧ files st' = files st ∧ clock st' = clock st.
Proof.
  intros loc Hready. unfold dir_ready in Hready.
  destruct (ensure_location w loc st) as [[[]|e] s1] eqn:E1; [done |].
  destruct (ensure_location_spec _ _ _ _ _ E1) as (Hf & Hc & Ht & _).
  destruct (ensure_location_error _ _ _ _ _ E1) as (q & Hq & ->).
  exists q, s1. rewrite fetch_unfold. fold loc. by rewrite E1.
Qed.

Lemma blocked_directory_fails_first_witness :
  ∃ q st',
    adk_equilibrium.fetch_adk_equilibrium example_world None true
      blocked_state = (Err (FilesystemError q), st') ∧
    q ∈ ancestors "/home/user/MDAnalysis_data/adk_equilibrium"
          ++ ["/home/user/MDAnalysis_data/adk_equilibrium"] ∧
    trace st' = trace blocked_state.
Proof.
  destruct (blocked_directory_fails_first example_world adk_equilibrium.NAME
              adk_equilibrium.DESCRIPTION adk_equilibrium.ARCHIVE None true
              blocked_state) as (q & st' & F & Hq & Ht & _).
  - vm_compute. reflexivity.
  - exists q, st'. split; [exact F |]. split; [exact Hq | exact Ht].
Defined.

(** ** The bundle *)

(** X7.  The paths in a bundle are computed, not discovered: two
    successful calls with the same data home, from whatever states and in
    whatever modes, return bundles that agree on every key except the
    description. *)
Theorem bundle_paths_independent_of_state
    (w : World) (NAME DESCRIPTION : string)
    (ARCHIVE : list (string * RemoteFileMetadata))
    (data_home : option string) (dim1 dim2 : bool)
    (st1 st2 : State) (b1 b2 : Bunch) s1 s2 :
  fetch w NAME DESCRIPTION ARCHIVE data_home dim1 st1 = (Ok b1, s1) →
  fetch w NAME DESCRIPTION ARCHIVE data_home dim2 st2 = (Ok b2, s2) →
  delete "DESCR" b1 = delete "DESCR" b2 ∧
  ∀ role, role ≠ "DESCR" → b1 !! role = b2 !! role.
Proof.
  intros F1 F2.
  destruct (fetch_success _ _ _ _ _ _ _ _ _ F1) as (t1 & _ & -> & _).
  destruct (fetch_success _ _ _ _ _ _ _ _ _ F2) as (t2 & _ & -> & _).
  split; [by rewrite !delete_insert_eq |].
  intros role Hne. by rewrite !lookup_insert_ne.
Qed.

Lemma bundle_paths_independent_of_state_witness :
  let online := adk_equilibrium.fetch_adk_equilibrium example_world None true
                  fresh_state in
  let offline := adk_equilibrium.fetch_adk_equilibrium example_world None
                   false mutated_cache_state in
  ∃ b1 b2 : Bunch,
    online.1 = Ok b1 ∧ offline.1 = Ok b2 ∧
    b1 !! "trajectory" = b2 !! "trajectory".
Proof.
  intros online offline.
  set (b := <["DESCR" := "AdK equilibrium dataset"]>
              (assign_all "/home/user/MDAnalysis_data/adk_equilibrium"
                          adk_equilibrium.ARCHIVE ∅)).
  assert (F1 : fetch example_world adk_equilibrium.NAME
                 adk_equilibrium.DESCRIPTION adk_equilibrium.ARCHIVE None true
                 fresh_state = (Ok b, online.2)) by by_evaluation.
  assert (F2 : fetch example_world adk_equilibrium.NAME
                 adk_equilibrium.DESCRIPTION adk_equilibrium.ARCHIVE None
                 false mutated_cache_state
               = (Ok b, offline.2)) by by_evaluation.
  exists b, b. split; [by_evaluation |]. split; [by_evaluation |].
  apply (bundle_paths_independent_of_state example_world _ _ _ _ _ _ _ _ _ _ _ _
           F1 F2).
  discriminate.
Defined.

(** ** The history of a call *)

Section History.
Context (w : World) (loc : string).

Lemma retrieve_trace (n : nat) (source : string) (st : State) o st' :
  retrieve w n source st = (o, st') →
  ∃ k, k ≤ n ∧ trace st' = replicate k (EvRequest source) ++ trace st.
Proof.
  revert st. induction n as [|n IH]; intros st; simpl.
  - intros [= <- <-]. exists 0. split; [lia | done].
  - destruct (remote w source (clock st)).
    + intros [= <- <-]. exists 1. split; [lia | done].
    + intros H. destruct (IH _ H) as (k & Hk & Ht). simpl in Ht.
      exists (S k). split; [lia |].
      by rewrite Ht, replicate_S_end, <- app_assoc.
Qed.

Lemma fetch_remote_trace (meta : RemoteFileMetadata) (st : State) r st' :
  path_exists st (join loc (filename meta)) = false →
  _fetch_remote w meta loc false st = (r, st') →
  ∃ k, k ≤ S (retries w) ∧
       trace st' = replicate k (EvRequest (url meta))
                   ++ EvFetchRemote meta loc :: trace st.
Proof.
  intros Hne. unfold _fetch_remote, bind, emit, cached_ok. cbv beta iota zeta.
  set (p := join loc (filename meta)) in *.
  set (st0 := {| dirs := dirs st; files := files st; clock := clock st;
                 trace := EvFetchRemote meta loc :: trace st |}).
  assert (Hne0 : path_exists st0 p = false) by done.
  rewrite Hne0. cbn [negb andb].
  destruct (negb (is_dir st0 loc) || is_dir st0 p || negb (permits w p)).
  { intros [<- <-]%pair_equal_spec. exists 0. split; [lia | done]. }
  destruct (retrieve w (S (retries w)) (url meta) st0) as [[body|] st1] eqn:E;
    destruct (retrieve_trace _ _ _ _ _ E) as (k & Hk & Ht).
  - destruct (String.eqb (sha256 w body) (checksum meta));
      intros [<- <-]%pair_equal_spec; by exists k.
  - intros [<- <-]%pair_equal_spec. by exists k.
Qed.

Lemma item_step_trace (dim : bool) item (st : State) r st' :
  item_step w loc dim item st = (r, st') →
  trace st' = trace st ∨
  ∃ n, n ≤ S (retries w) ∧ trace st' = download_block loc item n ++ trace st.
Proof.
  destruct (path_exists st (join loc (filename item.2))) eqn:E.
  { rewrite item_step_present by done. intros [= <- <-]. by left. }
  destruct dim.
  2:{ rewrite item_step_offline by done. intros [= <- <-]. by left. }
  rewrite item_step_online by done.
  set (st0 := (emit _ st).2).
  assert (E0 : path_exists st0 (join loc (filename item.2)) = false) by exact E.
  destruct (_fetch_remote w item.2 loc false st0) as [r1 st1] eqn:F.
  destruct (fetch_remote_trace _ _ _ _ E0 F) as (k & Hk & Ht).
  intros Hr. right. exists k. split; [done |].
  assert (st' = st1) as -> by (destruct r1; by injection Hr).
  rewrite Ht. unfold download_block. by rewrite <- app_assoc.
Qed.

Lemma loop_trace_empty items : loop_trace w loc items [].
Proof. induction items; by constructor. Qed.

Lemma for_items_trace (dim : bool) items (recs : Bunch) (st : State) r st' :
  for_items w loc dim items recs st = (r, st') →
  ∃ new, trace st' = new ++ trace st ∧ loop_trace w loc items new.
Proof.
  revert recs st. induction items as [|item rest IH]; intros recs st.
  - intros [= <- <-]. exists []. split; [done | constructor].
  - rewrite for_items_cons.
    destruct (item_step w loc dim item st) as [[[]|e] st1] eqn:S;
      destruct (item_step_trace _ _ _ _ _ S) as [Ht | (n & Hn & Ht)].
    + intros H. destruct (IH _ _ H) as (new & Ht' & Hl).
      exists new. rewrite Ht', Ht. split; [done | by constructor].
    + intros H. destruct (IH _ _ H) as (new & Ht' & Hl).
      exists (new ++ download_block loc item n).
      rewrite Ht', Ht, app_assoc. split; [done | by constructor].
    + intros [= <- <-]. exists []. split; [done | apply loop_trace_empty].
    + intros [= <- <-]. exists ([] ++ download_block loc item n).
      split; [done |]. constructor; [done | apply loop_trace_empty].
Qed.

Lemma downloader_calls_app (a b : list event) :
  downloader_calls (a ++ b) = downloader_calls a ++ downloader_calls b.
Proof.
  induction a as [|[] a IH]; simpl; [done | done | | done | done].
  by rewrite IH.
Qed.

Lemma downloader_calls_block item (n : nat) :
  downloader_calls (download_block loc item n) = [item.2].
Proof.
  unfold download_block. rewrite downloader_calls_app. simpl.
  by induction n.
Qed.

Lemma loop_trace_calls items new :
  loop_trace w loc items new →
  sublist (reverse (downloader_calls new)) items.*2.
Proof.
  induction 1 as [| item items new _ IH | item items new n _ _ IH].
  - constructor.
  - rewrite fmap_cons. by constructor.
  - rewrite downloader_calls_app, downloader_calls_block, reverse_app.
    rewrite fmap_cons. simpl. by constructor.
Qed.

Lemma loop_trace_members items new e :
  loop_trace w loc items new → e ∈ new →
  match e with
  | EvFetchRemote m d => d = loc ∧ ∃ role, (role, m) ∈ items
  | EvRequest source => ∃ item, item ∈ items ∧ source = url item.2
  | EvLogInfo msg =>
      ∃ item, item ∈ items ∧
              msg = downloading_message item.1 (url item.2)
                      (join loc (filename item.2))
  | EvOpen _ => False
  end.
Proof.
  induction 1 as [| item items new _ IH | item items new n _ _ IH].
  - by intros ?%elem_of_nil.
  - intros Hin. specialize (IH Hin). destruct e.
    + destruct IH as (i & Hi & ->). exists i. split; [by constructor | done].
    + destruct IH as [-> [role Hr]]. split; [done |]. exists role. by constructor.
    + destruct IH as (i & Hi & ->). exists i. split; [by constructor | done].
    + done.
  - intros [Hin | Hin]%elem_of_app.
    + specialize (IH Hin). destruct e.
      * destruct IH as (i & Hi & ->). exists i. split; [by constructor | done].
      * destruct IH as [-> [role Hr]]. split; [done |]. exists role.
        by constructor.
      * destruct IH as (i & Hi & ->). exists i. split; [by constructor | done].
      * done.
    + unfold download_block in Hin.
      apply elem_of_app in Hin as [[-> _]%elem_of_replicate | Hin].
      * exists item. split; [constructor | done].
      * apply elem_of_cons in Hin as [-> | Hin%list_elem_of_singleton].
        -- split; [done |]. exists item.1. destruct item. constructor.
        -- subst e. exists item. split; [constructor | done].
Qed.

Lemma block_split item (n : nat) l m d post :
  download_block loc item n = l ++ EvFetchRemote m d :: post →
  m = item.2 ∧ d = loc ∧
  post = [EvLogInfo (downloading_message item.1 (url item.2)
                       (join loc (filename item.2)))].
Proof.
  unfold download_block. revert l. induction n as [|n IH]; intros l; simpl.
  - destruct l as [|x [|y [|z l]]]; simpl; intros [=]; by subst.
  - destruct l as [|x l]; simpl; [done |]. intros [= _ H]. by apply IH in H.
Qed.

Lemma loop_trace_announced items new pre m d post :
  loop_trace w loc items new →
  new = pre ++ EvFetchRemote m d :: post →
  ∃ role post',
    post = EvLogInfo (downloading_message role (url m)
                        (join d (filename m))) :: post' ∧
    (role, m) ∈ items ∧ d = loc.
Proof.
  intros H. revert pre post.
  induction H as [| item items new _ IH | item items new n _ _ IH];
    intros pre post Heq.
  - by destruct pre.
  - destruct (IH _ _ Heq) as (role & post' & -> & Hin & ->).
    exists role, post'. split; [done |]. split; [by constructor | done].
  - apply app_eq_app in Heq as [l [[Hnew Hpost] | [Hpre Hblock]]].
    + destruct l as [|x l].
      * simpl in Hpost. symmetry in Hpost.
        destruct (block_split item n [] m d post Hpost) as (-> & -> & ->).
        exists item.1, []. split; [done |]. split; [|done].
        destruct item. constructor.
      * simpl in Hpost. injection Hpost as <- ->.
        destruct (IH _ _ Hnew) as (role & post' & -> & Hin & ->).
        exists role, (post' ++ download_block loc item n).
        split; [done |]. split; [by constructor | done].
    + destruct (block_split item n l m d post Hblock) as (-> & -> & ->).
      exists item.1, []. split; [done |]. split; [|done].
      destruct item. constructor.
Qed.
End History.

Section FetchHistory.
Context (w : World) (NAME DESCRIPTION : string).
Context (ARCHIVE : list (string * RemoteFileMetadata)).
Context (data_home : option string) (dim : bool).

Let loc := data_location_of w NAME data_home.
Let descr := description_path w DESCRIPTION.

Lemma fetch_trace (st : State) r st' new :
  fetch w NAME DESCRIPTION ARCHIVE data_home dim st = (r, st') →
  trace st' = new ++ trace st →
  ∃ opens new0,
    new = opens ++ new0 ∧ loop_trace w loc ARCHIVE new0 ∧
    (opens = [] ∨ opens = [EvOpen descr]).
Proof.
  intros F Hnew.
  destruct (fetch_inv _ _ _ _ _ _ _ _ _ F) as (r1 & s1 & E1 & H1).
  fold loc in E1, H1. fold descr in H1.
  destruct (ensure_location_spec _ _ _ _ _ E1) as (_ & _ & Ht1 & _).
  destruct r1 as [[]|e].
  2:{ destruct H1 as [_ ->]. rewrite Ht1 in Hnew.
      change (trace st) with ([] ++ trace st) in Hnew at 1.
      apply app_inv_tail in Hnew. subst new.
      exists [], []. split; [done |]. split; [apply loop_trace_empty | by left]. }
  destruct H1 as (r2 & s2 & E2 & H2).
  destruct (for_items_trace _ _ _ _ _ _ _ _ E2) as (new0 & Ht2 & Hl).
  rewrite Ht1 in Ht2. destruct r2 as [recs|e].
  - destruct H2 as (_ & _ & _ & Ht3 & _). rewrite Ht3, Ht2 in Hnew.
    change (EvOpen descr :: new0 ++ trace st)
      with (([EvOpen descr] ++ new0) ++ trace st) in Hnew.
    apply app_inv_tail in Hnew. subst new.
    exists [EvOpen descr], new0. split; [done |]. split; [done | by right].
  - destruct H2 as [_ ->]. rewrite Ht2 in Hnew.
    apply app_inv_tail in Hnew. subst new.
    exists [], new0. split; [done |]. split; [done | by left].
Qed.
End FetchHistory.

(** X8.  No download without notice: in the history of a call, every
    call of the downloader comes directly after the log line
    ["Downloading <role>: <url> -> <local path>..."] for the same file,
    which is an item of the archive, and is directed at the dataset
    directory. *)
Theorem every_download_is_announced
    (w : World) (NAME DESCRIPTION : string)
    (ARCHIVE : list (string * RemoteFileMetadata))
    (data_home : option string) (dim : bool) (st : State) r st'
    (pre post : list event) (m : RemoteFileMetadata) (d : string) :
  fetch w NAME DESCRIPTION ARCHIVE data_home dim st = (r, st') →
  trace st' = (pre ++ EvFetchRemote m d :: post) ++ trace st →
  ∃ role post',
    post = EvLogInfo (downloading_message role (url m)
                        (join d (filename m))) :: post' ∧
    (role, m) ∈ ARCHIVE ∧
    d = data_location_of w NAME data_home.
Proof.
  intros F Ht.
  destruct (fetch_trace _ _ _ _ _ _ _ _ _ _ F Ht)
    as (opens & new0 & Hnew & Hl & Hopens).
  destruct Hopens as [-> | ->].
  - simpl in Hnew. symmetry in Hnew.
    exact (loop_trace_announced _ _ _ _ _ _ _ _ Hl Hnew).
  - destruct pre as [|x pre]; [done |]. injection Hnew as -> Hnew.
    symmetry in Hnew. exact (loop_trace_announced _ _ _ _ _ _ _ _ Hl Hnew).
Qed.

Lemma every_download_is_announced_witness :
  let run := adk_equilibrium.fetch_adk_equilibrium example_world None true
               fresh_state in
  ∃ role post',
    drop 6 (trace run.2)
    = EvLogInfo (downloading_message role
                   "https://ndownloader.figshare.com/files/8672230"
                   "/home/user/MDAnalysis_data/adk_equilibrium/adk4AKE.psf")
        :: post' ∧
    role = "topology".
Proof.
  intros run.
  set (m := {| filename := "adk4AKE.psf";
               url := "https://ndownloader.figshare.com/files/8672230";
               checksum :=
                 "1aa947d58fb41b6805dc1e7be4dbe65c6a8f4690f0bd7fc2ae03e7bd437085f4" |}).
  assert (F : fetch example_world adk_equilibrium.NAME
                adk_equilibrium.DESCRIPTION adk_equilibrium.ARCHIVE None true
                fresh_state = (run.1, run.2)) by by_evaluation.
  assert (Ht : trace run.2
               = (take 5 (trace run.2)
                  ++ EvFetchRemote m "/home/user/MDAnalysis_data/adk_equilibrium"
                  :: drop 6 (trace run.2)) ++ trace fresh_state)
    by by_evaluation.
  destruct (every_download_is_announced example_world adk_equilibrium.NAME
              adk_equilibrium.DESCRIPTION adk_equilibrium.ARCHIVE None true
              fresh_state run.1 run.2 _ _ m _ F Ht)
    as (role & post' & Hpost & Hin & _).
  exists role, post'. split; [exact Hpost |].
  apply list_elem_of_In in Hin. simpl in Hin.
  unfold m in Hin. destruct Hin as [H | [H | []]]; inversion H; reflexivity.
Defined.

(** X9.  A call reaches out only for its own archive: every call of the
    downloader is for the metadata of an item of the archive and for the
    dataset directory, every request goes to the url of an item of the
    archive, and the only file opened is the description. *)
Theorem network_confined_to_archive
    (w : World) (NAME DESCRIPTION : string)
    (ARCHIVE : list (string * RemoteFileMetadata))
    (data_home : option string) (dim : bool) (st : State) r st'
    (new : list event) (e : event) :
  fetch w NAME DESCRIPTION ARCHIVE data_home dim st = (r, st') →
  trace st' = new ++ trace st →
  e ∈ new →
  match e with
  | EvFetchRemote m d =>
      d = data_location_of w NAME data_home ∧ ∃ role, (role, m) ∈ ARCHIVE
  | EvRequest source => ∃ item, item ∈ ARCHIVE ∧ source = url item.2
  | EvLogInfo msg =>
      ∃ item, item ∈ ARCHIVE ∧
              msg = downloading_message item.1 (url item.2)
                      (join (data_location_of w NAME data_home)
                            (filename item.2))
  | EvOpen q => q = description_path w DESCRIPTION
  end.
Proof.
  intros F Ht Hin.
  destruct (fetch_trace _ _ _ _ _ _ _ _ _ _ F Ht)
    as (opens & new0 & -> & Hl & Hopens).
  apply elem_of_app in Hin as [Hin | Hin].
  - destruct Hopens as [-> | ->]; [by apply elem_of_nil in Hin |].
    by apply list_elem_of_singleton in Hin as ->.
  - pose proof (loop_trace_members _ _ _ _ _ Hl Hin) as H.
    by destruct e.
Qed.

Lemma network_confined_to_archive_witness :
  ∃ item, item ∈ ifabp_water.ARCHIVE ∧
          "https://ndownloader.figshare.com/files/12980636" = url item.2.
Proof.
  set (run := ifabp_water.fetch_ifabp_water example_world None true
                partial_cache_state).
  assert (F : fetch example_world ifabp_water.NAME ifabp_water.DESCRIPTION
                ifabp_water.ARCHIVE None true partial_cache_state
              = (run.1, run.2)) by by_evaluation.
  assert (Ht : trace run.2 = trace run.2 ++ trace partial_cache_state)
    by by_evaluation.
  assert (Hin : EvRequest "https://ndownloader.figshare.com/files/12980636"
                ∈ trace run.2) by by_evaluation.
  exact (network_confined_to_archive example_world ifabp_water.NAME
           ifabp_water.DESCRIPTION ifabp_water.ARCHIVE None true
           partial_cache_state run.1 run.2 _ _ F Ht Hin).
Defined.

(** X10.  The downloader is called at most once per item and in the
    order of the archive: the files it was called for, oldest call
    first, form a sublist of the files of the archive. *)
Theorem downloads_follow_archive_order
    (w : World) (NAME DESCRIPTION : string)
    (ARCHIVE : list (string * RemoteFileMetadata))
    (data_home : option string) (dim : bool) (st : State) r st'
    (new : list event) :
  fetch w NAME DESCRIPTION ARCHIVE data_home dim st = (r, st') →
  trace st' = new ++ trace st →
  sublist (reverse (downloader_calls new)) ARCHIVE.*2 ∧
  length (downloader_calls new) ≤ length ARCHIVE.
Proof.
  intros F Ht.
  destruct (fetch_trace _ _ _ _ _ _ _ _ _ _ F Ht)
    as (opens & new0 & -> & Hl & Hopens).
  assert (Hcalls : downloader_calls (opens ++ new0) = downloader_calls new0).
  { rewrite downloader_calls_app. by destruct Hopens as [-> | ->]. }
  rewrite Hcalls. pose proof (loop_trace_calls _ _ _ _ Hl) as Hsub.
  split; [exact Hsub |].
  apply sublist_length in Hsub.
  by rewrite length_reverse, length_fmap in Hsub.
Qed.

Lemma downloads_follow_archive_order_witness :
  let run := ifabp_water.fetch_ifabp_water example_world None true
               partial_cache_state in
  filename <$> reverse (downloader_calls (trace run.2))
  = ["ifabp_water_0.pdb"; "rmsfit_ifabp_water_1.dcd"] ∧
  sublist (reverse (downloader_calls (trace run.2))) ifabp_water.ARCHIVE.*2.
Proof.
  intros run. split; [vm_compute; reflexivity |].
  assert (F : fetch example_world ifabp_water.NAME ifabp_water.DESCRIPTION
                ifabp_water.ARCHIVE None true partial_cache_state
              = (run.1, run.2)) by by_evaluation.
  assert (Ht : trace run.2 = trace run.2 ++ trace partial_cache_state)
    by by_evaluation.
  exact (proj1 (downloads_follow_archive_order example_world ifabp_water.NAME
                  ifabp_water.DESCRIPTION ifabp_water.ARCHIVE None true
                  partial_cache_state run.1 run.2 _ F Ht)).
Defined.

(** X11.  A failed call is about the first file that is missing when it
    returns.  Provided the dataset directory was there or could be
    created: if a file of the archive is missing after the call, the
    exception is the one of the loop for the first such file, in archive
    order (the files before it are in place, so a later call resumes
    there); if none is missing, the exception is the failure to open the
    description. *)
Theorem failure_is_about_first_missing
    (w : World) (NAME DESCRIPTION : string)
    (ARCHIVE : list (string * RemoteFileMetadata))
    (data_home : option string) (dim : bool) (st : State) e st' :
  let loc := data_location_of w NAME data_home in
  dir_ready w loc st = true →
  fetch w NAME DESCRIPTION ARCHIVE data_home dim st = (Err e, st') →
  match first_missing st' loc ARCHIVE with
  | Some item => item_error dim loc item e
  | None => e = FileNotFoundError (description_path w DESCRIPTION)
  end.
Proof.
  intros loc Hready F.
  destruct (fetch_inv _ _ _ _ _ _ _ _ _ F) as (r1 & s1 & E1 & H1).
  fold loc in E1, H1. unfold dir_ready in Hready. rewrite E1 in Hready.
  destruct r1 as [[]|e1]; [|done].
  destruct H1 as (r2 & s2 & E2 & H2). destruct r2 as [recs|e2].
  - destruct H2 as (Hd & Hf & _ & _ & Hr).
    destruct (for_items_spec _ _ _ _ _ _ _ _ E2) as [_ [_ Hall]].
    assert (FM : first_missing st' loc ARCHIVE = None).
    { apply first_missing_None. eapply Forall_impl; [exact Hall |].
      intros item. simpl. intros Hp. by rewrite (path_exists_ext s2 st'). }
    rewrite FM. destruct (files s2 !! description_path w DESCRIPTION); [done |].
    by injection Hr.
  - destruct H2 as [[= <-] ->].
    destruct (for_items_failure _ _ _ _ _ _ _ _ E2) as (item & -> & He).
    exact He.
Qed.

Lemma failure_is_about_first_missing_witness :
  item_error true "/home/user/MDAnalysis_data/ifabp_water"
    ("structure",
     {| filename := "ifabp_water_0.pdb";
        url := "https://ndownloader.figshare.com/files/12980636";
        checksum :=
          "8ccf5f75fd85385921c0cb77f00281a93b933fc1261c42fc9492f43983448a72" |})
    (IntegrityError "/home/user/MDAnalysis_data/ifabp_water/ifabp_water_0.pdb"
       "8ccf5f75fd85385921c0cb77f00281a93b933fc1261c42fc9492f43983448a72" "").
Proof.
  set (run := ifabp_water.fetch_ifabp_water tampering_world None true
                partial_cache_state).
  set (e := IntegrityError
              "/home/user/MDAnalysis_data/ifabp_water/ifabp_water_0.pdb"
              "8ccf5f75fd85385921c0cb77f00281a93b933fc1261c42fc9492f43983448a72"
              "").
  assert (F : fetch tampering_world ifabp_water.NAME ifabp_water.DESCRIPTION
                ifabp_water.ARCHIVE None true partial_cache_state
              = (Err e, run.2)) by by_evaluation.
  pose proof (failure_is_about_first_missing tampering_world ifabp_water.NAME
                ifabp_water.DESCRIPTION ifabp_water.ARCHIVE None true
                partial_cache_state e run.2
                ltac:(vm_compute; reflexivity) F) as H.
  assert (FM : first_missing run.2
                 (data_location_of tampering_world ifabp_water.NAME None)
                 ifabp_water.ARCHIVE
               = Some ("structure",
                       {| filename := "ifabp_water_0.pdb";
                          url := "https://ndownloader.figshare.com/files/12980636";
                          checksum :=
                            "8ccf5f75fd85385921c0cb77f00281a93b933fc1261c42fc9492f43983448a72" |}))
    by (vm_compute; reflexivity).
  rewrite FM in H. exact H.
Defined.

(** ** Filling the cache *)

Section Reliable.
Context (w : World) (loc : string).

Lemma fetch_remote_reliable (meta : RemoteFileMetadata) (st : State)
    (body : string) :
  path_exists st (join loc (filename meta)) = false →
  is_dir st loc = true →
  permits w (join loc (filename meta)) = true →
  remote w (url meta) (clock st) = Some body →
  sha256 w body = checksum meta →
  ∃ st', _fetch_remote w meta loc false st
         = (Ok (join loc (filename meta)), st') ∧
         dirs st' = dirs st.
Proof.
  intros Hne Hdir Hperm Hremote Hsum.
  unfold _fetch_remote, bind, emit, cached_ok. cbv beta iota zeta.
  set (p := join loc (filename meta)) in *.
  set (st0 := {| dirs := dirs st; files := files st; clock := clock st;
                 trace := EvFetchRemote meta loc :: trace st |}).
  assert (Hne0 : path_exists st0 p = false) by done.
  assert (Hdir0 : is_dir st0 loc = true) by done.
  assert (Hnd : is_dir st0 p = false).
  { unfold path_exists in Hne0. by apply orb_false_iff in Hne0 as [? _]. }
  rewrite Hne0, Hdir0, Hnd, Hperm. cbn [negb andb orb].
  cbn [retrieve]. change (clock st0) with (clock st). rewrite Hremote.
  rewrite Hsum, String.eqb_refl. by eexists.
Qed.

Lemma for_items_reliable items (recs : Bunch) (st : State) :
  is_dir st loc = true →
  (∀ item n, item ∈ items →
     permits w (join loc (filename item.2)) = true ∧
     ∃ body, remote w (url item.2) n = Some body ∧
             sha256 w body = checksum item.2) →
  ∃ recs' st', for_items w loc true items recs st = (Ok recs', st').
Proof.
  revert recs st. induction items as [|item rest IH]; intros recs st Hdir Hrel.
  - by eexists _, _.
  - rewrite for_items_cons.
    assert (Hrest : ∀ i n, i ∈ rest →
              permits w (join loc (filename i.2)) = true ∧
              ∃ body, remote w (url i.2) n = Some body ∧
                      sha256 w body = checksum i.2).
    { intros i n Hi. apply Hrel. by constructor. }
    destruct (path_exists st (join loc (filename item.2))) eqn:E.
    + rewrite item_step_present by done. by apply IH.
    + rewrite item_step_online by done.
      set (st0 := (emit _ st).2).
      destruct (Hrel item (clock st0) ltac:(constructor))
        as (Hperm & body & Hremote & Hsum).
      destruct (fetch_remote_reliable item.2 st0 body E Hdir Hperm Hremote Hsum)
        as (st1 & -> & Hd).
      apply IH; [|done]. unfold is_dir in *. by rewrite Hd.
Qed.
End Reliable.

(** X12.  Filling an empty cache.  With downloads enabled, a call
    succeeds whenever the dataset directory is or can be made a
    directory, the description is readable, the process may create the
    files of the archive, and the remote host answers every request for
    a file of the archive with bytes of the recorded checksum. *)
Theorem reliable_host_fetch_succeeds
    (w : World) (NAME DESCRIPTION : string)
    (ARCHIVE : list (string * RemoteFileMetadata))
    (data_home : option string) (st : State) :
  let loc := data_location_of w NAME data_home in
  dir_ready w loc st = true →
  is_file st loc = false →
  is_Some (files st !! description_path w DESCRIPTION) →
  (∀ item n, item ∈ ARCHIVE →
     permits w (join loc (filename item.2)) = true ∧
     ∃ body, remote w (url item.2) n = Some body ∧
             sha256 w body = checksum item.2) →
  ∃ (b : Bunch) st',
    fetch w NAME DESCRIPTION ARCHIVE data_home true st = (Ok b, st') ∧
    Forall (λ item, path_exists st' (join loc (filename item.2)) = true)
           ARCHIVE.
Proof.
  intros loc Hready Hnofile [text Hdescr] Hrel.
  unfold dir_ready in Hready.
  destruct (ensure_location w loc st) as [[[]|e] s1] eqn:E1; [|done].
  destruct (ensure_location_spec _ _ _ _ _ E1) as (Hf1 & _).
  assert (Hdir : is_dir s1 loc = true).
  { pose proof (ensure_location_ok _ _ _ _ E1) as Hex.
    unfold path_exists in Hex. apply orb_true_iff in Hex as [? | Hfile]; [done |].
    unfold is_file in *. rewrite Hf1 in Hfile. congruence. }
  destruct (for_items_reliable w loc ARCHIVE ∅ s1 Hdir Hrel)
    as (recs & s2 & E2).
  destruct (for_items_spec _ _ _ _ _ _ _ _ E2) as [[_ Hf2 _ _] _].
  assert (Hd2 : files s2 !! description_path w DESCRIPTION = Some text).
  { eapply lookup_weaken; [|exact Hf2]. by rewrite Hf1. }
  assert (F : fetch w NAME DESCRIPTION ARCHIVE data_home true st
              = (Ok (<["DESCR" := text]> recs),
                 {| dirs := dirs s2; files := files s2; clock := clock s2;
                    trace := EvOpen (description_path w DESCRIPTION)
                               :: trace s2 |})).
  { rewrite fetch_unfold. fold loc. rewrite E1, E2.
    by rewrite (open_read_present _ _ _ Hd2). }
  eexists _, _. split; [exact F |].
  by destruct (fetch_success _ _ _ _ _ _ _ _ _ F) as (_ & _ & _ & Hall & _).
Qed.

Lemma reliable_host_fetch_succeeds_witness :
  ∃ (b : Bunch) st',
    adk_equilibrium.fetch_adk_equilibrium example_world None true fresh_state
      = (Ok b, st') ∧
    Forall (λ item,
              path_exists st'
                (join "/home/user/MDAnalysis_data/adk_equilibrium"
                      (filename item.2)) = true)
           adk_equilibrium.ARCHIVE.
Proof.
  apply (reliable_host_fetch_succeeds example_world adk_equilibrium.NAME
           adk_equilibrium.DESCRIPTION adk_equilibrium.ARCHIVE None
           fresh_state).
  - vm_compute. reflexivity.
  - vm_compute. reflexivity.
  - exists "AdK equilibrium dataset". vm_compute. reflexivity.
  - intros item n Hin%list_elem_of_In. split; [reflexivity |].
    destruct Hin as [<- | [<- | []]]; eexists;
      (split; [reflexivity | vm_compute; reflexivity]).
Defined.
